(** * Resume-Intelligence-Engine: the LLM ranking layer, the PDF loader and
      the backend configuration check, embedded in Rocq.

    The development follows the Python sources:
    - [ranking_logic.py]: [normalize_candidate], [build_prompt_for_candidate],
      [call_llm], [parse_llm_json_response], [evaluate_candidates_with_llm];
    - [llm_backend.py]: [is_ollama_installed], [_get_cloudflare_config],
      [score_candidate];
    - [pdf_parser.py]: [_is_pdf_bytes], [load_pdf_binary];
    - [generate_sample_resumes.py]: [make_minimal_pdf_bytes];
    - [app.py]: the loop that loads the resume folder, the construction of the
      candidates and the details line of the printed ranking.

    Conventions of the embedding.
    - A Python [str] is a [string]; each character stands for one code point
      below 256.
    - A Python [float] is an IEEE-754 binary64 value, a [spec_float] of the
      Standard Library used at precision 53 and maximal exponent 1024; a Python
      [int] is a [Z].
    - A [dict] is an association list read from the left, a JSON-like value
      is a [pyval].
    - A function that may raise returns [exn + A]; the scorer, which talks to
      the outside world, threads an explicit world state.
    - Console progress output and wall-clock timing of the ranking loop are not
      part of the model.
    - The Python library functions [json.loads], [json.dumps], [repr], the
      HTTP transport, [os.path.join] and the opening of files are parameters of
      the development. *)

From Stdlib Require Import ZArith List String Ascii Bool Lia.
From Stdlib Require Import Permutation Sorted.
From Stdlib Require Import Floats.SpecFloat.
From Stdlib Require Import Decimal DecimalString.
From Stdlib Require Import Strings.Byte.
Import ListNotations.

Open Scope string_scope.
Open Scope Z_scope.
Open Scope list_scope.

Set Warnings "-register-all,-notation-for-abbreviation".

(** ** Python values *)

Module Py.

(** Binary64 arithmetic. *)
Definition prec : Z := 53.
Definition emax : Z := 1024.

Definition float_of_Z (z : Z) : spec_float := binary_normalize prec emax z 0 false.
Definition fmul : spec_float -> spec_float -> spec_float := SFmul prec emax.
Definition is_nan (f : spec_float) : bool :=
  match f with S754_nan => true | _ => false end.
Definition is_inf (f : spec_float) : bool :=
  match f with S754_infinity _ => true | _ => false end.
Definition is_fzero (f : spec_float) : bool :=
  match f with S754_zero _ => true | _ => false end.

(** The values [json.loads] produces, which are also the values a candidate
    or a configuration mapping holds. *)
Inductive pyval : Type :=
| PNone
| PBool (b : bool)
| PInt (z : Z)
| PFloat (f : spec_float)
| PStr (s : string)
| PList (l : list pyval)
| PDict (d : list (string * pyval)).

Definition dict : Type := list (string * pyval).

(** Exceptions.  Every exception of the model derives from [Exception]. *)
Inductive exc_class : Type :=
| ValueError | TypeError | RuntimeError | NotImplementedError
| OverflowError | AttributeError | UnicodeEncodeError
| OtherException (cls : string).

Record exn : Type := Exn { exc_cls : exc_class; exc_str : string }.

Definition result (A : Type) : Type := (exn + A)%type.
Definition ret {A} (a : A) : result A := inr a.
Definition raise {A} (c : exc_class) (msg : string) : result A := inl (Exn c msg).
Definition bind {A B} (m : result A) (k : A -> result B) : result B :=
  match m with inl e => inl e | inr a => k a end.

(** [bool(v)]. *)
Definition truthy (v : pyval) : bool :=
  match v with
  | PNone => false
  | PBool b => b
  | PInt z => negb (z =? 0)
  | PFloat f => negb (is_fzero f)
  | PStr s => negb (s =? "")%string
  | PList l => match l with [] => false | _ => true end
  | PDict d => match d with [] => false | _ => true end
  end.

(** [a or b]. *)
Definition py_or (a b : pyval) : pyval := if truthy a then a else b.

(** [d.get(k, default)]. *)
Fixpoint dict_get (d : dict) (k : string) (default : pyval) : pyval :=
  match d with
  | [] => default
  | (k', v) :: d' => if (k' =? k)%string then v else dict_get d' k default
  end.

Fixpoint dict_mem (d : dict) (k : string) : bool :=
  match d with
  | [] => false
  | (k', _) :: d' => if (k' =? k)%string then true else dict_mem d' k
  end.

(** [d.setdefault(k, v)], as the new contents of [d]. *)
Definition dict_setdefault (d : dict) (k : string) (v : pyval) : dict :=
  if dict_mem d k then d else d ++ [(k, v)].

(** [isinstance(v, (int, float))]: [bool] is a subclass of [int]. *)
Definition is_int_or_float (v : pyval) : bool :=
  match v with
  | PBool _ | PInt _ | PFloat _ => true
  | _ => false
  end.

Definition is_list (v : pyval) : bool :=
  match v with PList _ => true | _ => false end.
Definition is_str (v : pyval) : bool :=
  match v with PStr _ => true | _ => false end.

Definition Z_of_bool (b : bool) : Z := if b then 1 else 0.

(** [v * 10] for a value that passed [isinstance(v, (int, float))]. *)
Definition times_ten (v : pyval) : pyval :=
  match v with
  | PBool b => PInt (Z_of_bool b * 10)
  | PInt z => PInt (z * 10)
  | PFloat f => PFloat (fmul f (float_of_Z 10))
  | _ => PNone
  end.

(** [float(int)]: rounds to nearest even, [OverflowError] beyond the range. *)
Definition float_of_int (z : Z) : result spec_float :=
  let f := float_of_Z z in
  if is_inf f then raise OverflowError "int too large to convert to float"
  else ret f.

(** [float(v)] for a value that passed [isinstance(v, (int, float))]. *)
Definition py_float (v : pyval) : result spec_float :=
  match v with
  | PBool b => float_of_int (Z_of_bool b)
  | PInt z => float_of_int z
  | PFloat f => ret f
  | _ => raise TypeError "float() argument must be a string or a real number"
  end.

(** Numbers as the sort key holds them. *)
Inductive pynum : Type :=
| NInt (z : Z)
| NFloat (f : spec_float).

Definition num_neg (n : pynum) : pynum :=
  match n with
  | NInt z => NInt (- z)
  | NFloat f => NFloat (SFopp f)
  end.

(** Exact comparison of an [int] with a [float], as Python does it. *)
Definition compare_int_float (z : Z) (f : spec_float) : option comparison :=
  match f with
  | S754_nan => None
  | S754_infinity s => Some (if s then Gt else Lt)
  | S754_zero _ => Some (z ?= 0)
  | S754_finite s m e =>
      let v := if s then Z.neg m else Z.pos m in
      Some (if 0 <=? e then z ?= v * 2 ^ e else z * 2 ^ (- e) ?= v)
  end.

Definition num_compare (a b : pynum) : option comparison :=
  match a, b with
  | NInt x, NInt y => Some (x ?= y)
  | NFloat x, NFloat y => SFcompare x y
  | NInt x, NFloat y => compare_int_float x y
  | NFloat x, NInt y => option_map CompOpp (compare_int_float y x)
  end.

Definition num_eqb (a b : pynum) : bool :=
  match num_compare a b with Some Eq => true | _ => false end.
Definition num_ltb (a b : pynum) : bool :=
  match num_compare a b with Some Lt => true | _ => false end.

(** [str(v)]: a [str] is itself, anything else prints as its [repr], which
    is a parameter. *)
Definition py_str (repr : pyval -> string) (v : pyval) : string :=
  match v with
  | PStr s => s
  | _ => repr v
  end.

(** The name of the type of a value, as error messages print it. *)
Definition type_name (v : pyval) : string :=
  match v with
  | PNone => "NoneType"
  | PBool _ => "bool"
  | PInt _ => "int"
  | PFloat _ => "float"
  | PStr _ => "str"
  | PList _ => "list"
  | PDict _ => "dict"
  end.

(** The text of the [AttributeError] for a method the value does not have. *)
Definition no_attribute (v : pyval) (method : string) : string :=
  ("'" ++ type_name v ++ "' object has no attribute '" ++ method ++ "'")%string.

End Py.

Export Py.

Declare Scope py_scope.
Delimit Scope py_scope with py.
Notation "x <- m ;; k" := (bind m (fun x => k))
  (at level 61, m at next level, right associativity) : py_scope.
Open Scope py_scope.

(** ** String methods *)

Module Str.

(** [str.isspace] on one character (code points below 256). *)
Definition is_space (c : ascii) : bool :=
  let n := N_of_ascii c in
  (((9 <=? n) && (n <=? 13)) || ((28 <=? n) && (n <=? 32))
   || (n =? 133) || (n =? 160))%N.

Fixpoint lstrip (s : string) : string :=
  match s with
  | EmptyString => EmptyString
  | String c s' => if is_space c then lstrip s' else s
  end.

Fixpoint rstrip (s : string) : string :=
  match s with
  | EmptyString => EmptyString
  | String c s' =>
      match rstrip s' with
      | EmptyString => if is_space c then EmptyString else String c EmptyString
      | r => String c r
      end
  end.

(** [s.strip()]. *)
Definition strip (s : string) : string := rstrip (lstrip s).

Definition len (s : string) : Z := Z.of_nat (String.length s).

(** [s.startswith(p)] and [s.endswith(p)]. *)
Definition startswith (s p : string) : bool := prefix p s.

Definition endswith (s p : string) : bool :=
  (String.length p <=? String.length s)%nat
  && (substring (String.length s - String.length p) (String.length p) s =? p)%string.

(** [s.find(sub)]: the least index at which [sub] occurs, [-1] if none. *)
Fixpoint find_from (sub s : string) (i : Z) : Z :=
  if prefix sub s then i
  else match s with
       | EmptyString => -1
       | String _ s' => find_from sub s' (i + 1)
       end.

Definition find (s sub : string) : Z := find_from sub s 0.

(** [s.rfind(sub)]: the greatest index at which [sub] occurs, [-1] if none. *)
Fixpoint rfind_from (sub s : string) (i : Z) : Z :=
  match s with
  | EmptyString => if prefix sub s then i else -1
  | String _ s' =>
      let r := rfind_from sub s' (i + 1) in
      if r =? -1 then (if prefix sub s then i else -1) else r
  end.

Definition rfind (s sub : string) : Z := rfind_from sub s 0.

(** Slice bounds: a negative index counts from the end, then both are
    clamped to the string. *)
Definition clamp (n i : Z) : Z :=
  let j := if i <? 0 then i + n else i in
  Z.max 0 (Z.min n j).

(** [s[lo:hi]]; an omitted bound is [None]. *)
Definition slice (s : string) (lo hi : option Z) : string :=
  let n := len s in
  let l := match lo with Some i => clamp n i | None => 0 end in
  let h := match hi with Some i => clamp n i | None => n end in
  substring (Z.to_nat l) (Z.to_nat (h - l)) s.

(** [s.replace(old, new)] for one-character [old] and [new]. *)
Fixpoint replace1 (old new : ascii) (s : string) : string :=
  match s with
  | EmptyString => EmptyString
  | String c s' => String (if Ascii.eqb c old then new else c) (replace1 old new s')
  end.

(** [str(n)] for an [int]. *)
Definition of_Z (z : Z) : string := NilZero.string_of_int (Z.to_int z).

Definition nl : string := String (ascii_of_nat 10) EmptyString.
Definition nl_char : ascii := ascii_of_nat 10.

End Str.

(** ** Library functions left as parameters *)

(** What [json.loads] does: it returns a value, raises [JSONDecodeError]
    (with its [msg] and [pos] attributes), or raises something else
    (a [RecursionError] on deep nesting, for instance). *)
Inductive loads_result : Type :=
| Loaded (v : pyval)
| DecodeError (msg : string) (pos : Z)
| LoadsRaised (e : exn).

(** ** ranking_logic.py: the reply parser *)

Section Parser.

Variable json_loads : string -> loads_result.

(** A method call [v.get(k, default)]; only a [dict] has the method. *)
Definition py_get (v : pyval) (k : string) (default : pyval) : result pyval :=
  match v with
  | PDict d => ret (dict_get d k default)
  | _ => raise AttributeError (no_attribute v "get")
  end.

(** A method call [raw.strip()]; only a [str] has the method. *)
Definition py_strip (raw : pyval) : result string :=
  match raw with
  | PStr s => ret (Str.strip s)
  | _ => raise AttributeError (no_attribute raw "strip")
  end.

(** Lines 111-118 of [parse_llm_json_response]: the fences are removed from
    the trimmed text. *)
Definition strip_fences (text0 : string) : string :=
  let text := text0 in
  let text :=
    if Str.startswith text "```" then
      let first_newline := Str.find text Str.nl in
      if negb (first_newline =? -1)
      then Str.slice text (Some (first_newline + 1)) None
      else text
    else text in
  if Str.endswith text "```"
  then Str.strip (Str.slice text None (Some (-3)))
  else text.

Definition no_json_object : string := "No JSON object found in LLM response".

Definition parse_failure (msg : string) (pos : Z) (snippet : string) : string :=
  let preview := Str.replace1 Str.nl_char " "%char (Str.slice snippet None (Some 200)) in
  ("Failed to parse JSON snippet: " ++ msg ++ " (pos " ++ Str.of_Z pos
     ++ "). Snippet preview: " ++ preview)%string.

(** Lines 120-134: the object between the first opening and the last closing
    brace is decoded, with one retry after appending a closing brace. *)
Definition parse_text (text : string) : result pyval :=
  let start := Str.find text "{" in
  let end_ := Str.rfind text "}" in
  if (start =? -1) || (end_ =? -1) || (end_ <? start) then
    raise ValueError no_json_object
  else
    let snippet := Str.slice text (Some start) (Some (end_ + 1)) in
    match json_loads snippet with
    | Loaded v => ret v
    | LoadsRaised e => inl e
    | DecodeError msg pos =>
        match json_loads (snippet ++ "}")%string with
        | Loaded v => ret v
        | LoadsRaised e' => inl e'
        | DecodeError _ _ => raise ValueError (parse_failure msg pos snippet)
        end
    end.

Definition parse_llm_json_response (raw : pyval) : result pyval :=
  text <- py_strip raw ;;
  parse_text (strip_fences text).

End Parser.

(** ** llm_backend.py *)

Module LlmBackend.

(** The three values imported from the [constants] module, which is not part
    of the sources at hand: each is a string or [None]. *)
Record constants : Type := Constants {
  CLOUDFLARE_API_TOKEN : option string;
  CLOUDFLARE_ACCOUNT_ID : option string;
  CLOUDFLARE_MODEL : option string
}.

(** Truth value of a string-or-[None]. *)
Definition is_set (v : option string) : bool :=
  match v with
  | Some s => negb (s =? "")%string
  | None => false
  end.

(** [a or b] on strings-or-[None]. *)
Definition or_else (a b : option string) : option string :=
  if is_set a then a else b.

Definition text_of (v : option string) : string :=
  match v with Some s => s | None => "" end.

(** The startup check: [bool(CLOUDFLARE_API_TOKEN and CLOUDFLARE_ACCOUNT_ID)]. *)
Definition is_ollama_installed (c : constants) : bool :=
  is_set (CLOUDFLARE_API_TOKEN c) && is_set (CLOUDFLARE_ACCOUNT_ID c).

Definition missing_account : string :=
  "Missing CLOUDFLARE_ACCOUNT_ID environment variable.".
Definition missing_token : string :=
  "Missing CLOUDFLARE_API_TOKEN environment variable.".
Definition missing_model : string :=
  "Cloudflare model name is empty. Set CLOUDFLARE_MODEL or pass model explicitly.".

Definition _get_cloudflare_config (c : constants) (model : option string)
  : result (string * string * string) :=
  let account_id := CLOUDFLARE_ACCOUNT_ID c in
  let api_token := CLOUDFLARE_API_TOKEN c in
  let model_name := or_else model (CLOUDFLARE_MODEL c) in
  if negb (is_set account_id) then raise RuntimeError missing_account
  else if negb (is_set api_token) then raise RuntimeError missing_token
  else if negb (is_set model_name) then raise RuntimeError missing_model
  else ret (text_of account_id, text_of api_token, text_of model_name).

(** The HTTP response as [score_candidate] reads it. *)
Record response : Type := Response {
  ok : bool;
  status_code : Z;
  text : string;
  json : result pyval
}.

(** What [requests.post] does: a response, a [requests.RequestException],
    or some other exception. *)
Inductive post_result : Type :=
| Posted (resp : response)
| RequestException (msg : string)
| PostRaised (e : exn).

Section Backend.

Variable World : Type.
Variable consts : constants.
(** [requests.post(url, headers, json, timeout)]: url, bearer header, prompt,
    timeout. *)
Variable requests_post :
  string -> string -> string -> Z -> World -> post_result * World.
Variable repr : pyval -> string.

Definition preamble : string :=
  ("You are an assistant that scores candidates for a software engineering role. "
   ++ "Return a single STRICT JSON object following the schema described in the prompt. "
   ++ "The JSON must be valid (double-quoted keys/strings, no comments, no trailing commas)."
   ++ Str.nl ++ Str.nl)%string.

(** [msg.get("content") or msg.get("message")] when [msg] is a [dict],
    [msg] itself when it is a [str], else [None]. *)
Definition message_text (msg : pyval) : pyval :=
  match msg with
  | PDict m => py_or (dict_get m "content" PNone) (dict_get m "message" PNone)
  | PStr _ => msg
  | _ => PNone
  end.

(** Lines 84-116: the assistant text is dug out of the decoded body. *)
Definition reply_text (data : pyval) : result pyval :=
  r <- py_get data "result" PNone ;;
  let result := py_or r (PDict []) in
  let text :=
    match result with
    | PDict d =>
        if dict_mem d "response" then message_text (dict_get d "response" PNone)
        else if dict_mem d "output" then message_text (dict_get d "output" PNone)
        else if dict_mem d "output_text" then dict_get d "output_text" PNone
        else PNone
    | _ => PNone
    end in
  let text := if negb (truthy text) && is_str result then result else text in
  let text := if negb (truthy text) then PStr (py_str repr data) else text in
  ret text.

Definition score_candidate (prompt : string) (model : option string)
    (timeout : Z) (w : World) : result pyval * World :=
  match _get_cloudflare_config consts model with
  | inl e => (inl e, w)
  | inr (account_id, api_token, model_name) =>
      let url := ("https://api.cloudflare.com/client/v4/accounts/" ++ account_id
                    ++ "/ai/run/" ++ model_name)%string in
      let authorization := ("Bearer " ++ api_token)%string in
      let full_prompt := (preamble ++ prompt)%string in
      match requests_post url authorization full_prompt timeout w with
      | (RequestException exc, w') =>
          (raise RuntimeError ("Error calling Cloudflare AI API: " ++ exc)%string, w')
      | (PostRaised e, w') => (inl e, w')
      | (Posted resp, w') =>
          if negb (ok resp) then
            (raise RuntimeError
               ("Cloudflare AI API returned HTTP " ++ Str.of_Z (status_code resp)
                  ++ ": " ++ Str.slice (text resp) None (Some 500))%string, w')
          else (data <- json resp ;; reply_text data, w')
      end
  end.

End Backend.

End LlmBackend.

(** ** pdf_parser.py *)

Module PdfParser.

Definition bytes : Type := list byte.

(** What a caller may pass: [bytes], a [bytearray], an object with a [read]
    method, a [str] (a list of code points), or anything else. *)
Inductive read_result : Type :=
| ReadBytes (b : bytes)
| ReadByteArray (b : bytes)
| ReadStr (s : list N)
| ReadOther
| ReadRaised (e : exn).

Inductive pdf_contents : Type :=
| Bytes (b : bytes)
| ByteArray (b : bytes)
| FileLike (read : read_result)
| Text (s : list N)
| Unsupported.

(** The header [b"%PDF-"]. *)
Definition pdf_magic : bytes := [x25; x50; x44; x46; x2d].

Definition bytes_eqb (a b : bytes) : bool :=
  if list_eq_dec Byte.byte_eq_dec a b then true else false.

(** [data[:5] == b"%PDF-"]; the argument is bytes already. *)
Definition _is_pdf_bytes (data : bytes) : bool :=
  bytes_eqb (firstn 5 data) pdf_magic.

(** [s.encode('latin-1')]. *)
Fixpoint encode_latin1 (s : list N) : result bytes :=
  match s with
  | [] => ret []
  | c :: s' =>
      match Byte.of_N c with
      | Some b => r <- encode_latin1 s' ;; ret (b :: r)
      | None => raise UnicodeEncodeError "'latin-1' codec can't encode character"
      end
  end.

Definition not_a_pdf : string :=
  "Provided data does not appear to be a PDF (missing %PDF- header)".

Definition load_pdf_binary (contents : pdf_contents) : result bytes :=
  data <-
    match contents with
    | Bytes b | ByteArray b => ret b
    | FileLike raw =>
        match raw with
        | ReadBytes b | ReadByteArray b => ret b
        | ReadStr s => encode_latin1 s
        | ReadOther => raise TypeError "file.read() returned unsupported type"
        | ReadRaised e => inl e
        end
    | Text s => encode_latin1 s
    | Unsupported =>
        raise TypeError
          "Unsupported input type for load_pdf_binary; expected bytes, file-like, or str"
    end ;;
  if negb (_is_pdf_bytes data) then raise ValueError not_a_pdf
  else ret data.

End PdfParser.

(** ** ranking_logic.py: prompt, scorer call and the ranking loop *)

(** The canonical result record; in the source it is a [dict] with exactly
    these nine keys. *)
Record canonical : Type := Canonical {
  id : pyval;
  name : pyval;
  llm_score : option spec_float;
  score_10 : option spec_float;
  breakdown : dict;
  passed_required : bool;
  reasons : list pyval;
  raw_llm_output : pyval;
  explanation : pyval
}.

Definition dq : string := String (ascii_of_nat 34) EmptyString.
(** A double-quoted word. *)
Definition q (s : string) : string := (dq ++ s ++ dq)%string.

Definition normalize_candidate (raw : dict) : dict :=
  let c := raw in
  let c := dict_setdefault c "education" (PDict []) in
  let c := dict_setdefault c "skills" (PDict []) in
  let c := dict_setdefault c "general_skills" (PList []) in
  let c := dict_setdefault c "personal_information" (PDict []) in
  let c := dict_setdefault c "available_types_of_work" (PList []) in
  c.

(** Stable sorting by a key, comparing keys with [<] only, as [sorted] does.
    On keys that [<] orders as a strict weak order every stable sort returns
    this list, and so does Python's.  A NaN among the scores breaks that order;
    what Python's [sorted] returns then depends on which comparisons its
    algorithm makes, and this definition is not meant to say it, except on a
    list in which no key is less than the key before it: Python's [sorted] and
    this one both leave such a list as it is.  The statements below that give
    the order of a ranking assume records free of NaN, or give a rearrangement
    only, or are about such a list. *)
Section Sorted.
Context {A K : Type}.
Variable ltb : K -> K -> bool.
Variable key : A -> K.

Fixpoint insert_by (x : A) (l : list A) : list A :=
  match l with
  | [] => [x]
  | y :: l' => if ltb (key y) (key x) then y :: insert_by x l' else x :: l
  end.

Definition sorted (l : list A) : list A := fold_right insert_by [] l.
End Sorted.

(** [a < b] on pairs [(bool, number)]: the first components that differ
    under [==] decide. *)
Definition bool_ltb (a b : bool) : bool := negb a && b.

Definition key_ltb (a b : bool * pynum) : bool :=
  if negb (Bool.eqb (fst a) (fst b)) then bool_ltb (fst a) (fst b)
  else if negb (num_eqb (snd a) (snd b)) then num_ltb (snd a) (snd b)
  else false.

(** [r["llm_score"] or 0]. *)
Definition score_or_zero (s : option spec_float) : pynum :=
  match s with
  | Some f => if is_fzero f then NInt 0 else NFloat f
  | None => NInt 0
  end.

Definition is_none {A} (o : option A) : bool :=
  match o with None => true | Some _ => false end.

Definition sort_key (r : canonical) : bool * pynum :=
  (is_none (llm_score r), num_neg (score_or_zero (llm_score r))).

Section Ranking.

Variable World : Type.
Variable json_loads : string -> loads_result.
(** [json.dumps(v, ensure_ascii=False, indent=2)]. *)
Variable json_dumps : pyval -> string.
Variable repr : pyval -> string.

(** A scorer takes the prompt and answers with a value or raises. *)
Definition scorer : Type := string -> World -> result pyval * World.

(** [import llm_backend] fails ([None]) or gives a module whose
    [score_candidate] attribute may be missing. *)
Variable llm_backend : option (option scorer).

Definition build_prompt_for_candidate (candidate config : dict) : string :=
  let cand := normalize_candidate candidate in
  ("You are an assistant that scores candidates for a software engineering role." ++ Str.nl
   ++ "Return a single STRICT JSON object EXACTLY in the format shown in the example." ++ Str.nl
   ++ "Important: The response must be valid JSON, with keys and strings in double quotes, no comments, no trailing commas, and no Markdown code fences. Respond with ONLY the JSON object and nothing else." ++ Str.nl ++ Str.nl
   ++ "Candidate (input):" ++ Str.nl
   ++ json_dumps (PDict cand) ++ Str.nl ++ Str.nl
   ++ "Config (rules):" ++ Str.nl
   ++ json_dumps (PDict config) ++ Str.nl ++ Str.nl
   ++ "RESPONSE FORMAT EXAMPLE (must be valid JSON):" ++ Str.nl
   ++ "{" ++ Str.nl
   ++ "  " ++ q "score" ++ ": 0.82," ++ Str.nl
   ++ "  " ++ q "breakdown" ++ ": {" ++ Str.nl
   ++ "    " ++ q "experience" ++ ": 0.9," ++ Str.nl
   ++ "    " ++ q "education" ++ ": 0.6," ++ Str.nl
   ++ "    " ++ q "general" ++ ": 0.7," ++ Str.nl
   ++ "    " ++ q "optional_bonus" ++ ": 0.05" ++ Str.nl
   ++ "  }," ++ Str.nl
   ++ "  " ++ q "passed_required" ++ ": true," ++ Str.nl
   ++ "  " ++ q "reasons" ++ ": [" ++ q "Short explanation here" ++ "]," ++ Str.nl
   ++ "  " ++ q "explanation" ++ ": " ++ q "One or two sentence explanation" ++ Str.nl
   ++ "}" ++ Str.nl ++ Str.nl
   ++ "Score the candidate now and return only the JSON object. Do not wrap it in backticks or markdown.")%string.

Definition call_llm (prompt : string) (llm_client : option scorer) (w : World)
  : result pyval * World :=
  match llm_client with
  | Some client => client prompt w
  | None =>
      match llm_backend with
      | None =>
          (raise NotImplementedError
             "No llm_client provided and llm_backend is unavailable", w)
      | Some (Some score_candidate) => score_candidate prompt w
      | Some None =>
          (raise NotImplementedError "llm_backend.score_candidate not implemented", w)
      end
  end.

(** Lines 165-175: the record appended when the scorer call or the parse
    raised [e]. *)
Definition failure_record (cand : dict) (e : exn) : canonical :=
  {| id := dict_get cand "id" PNone;
     name := dict_get cand "name" PNone;
     llm_score := None;
     score_10 := None;
     breakdown := [];
     passed_required := false;
     reasons := [PStr ("LLM error: " ++ exc_str e)%string];
     raw_llm_output := PNone;
     explanation := PNone |}.

(** [float(v) if isinstance(v, (int, float)) else None]. *)
Definition float_or_none (v : pyval) : result (option spec_float) :=
  if is_int_or_float v then (f <- py_float v ;; ret (Some f)) else ret None.

(** Lines 178-196: the parsed reply is turned into the canonical record.
    Nothing catches what is raised here. *)
Definition success_record (cand : dict) (raw parsed : pyval) : result canonical :=
  score <- py_get parsed "score" PNone ;;
  let score_10 := if is_int_or_float score then times_ten score else PNone in
  b <- py_get parsed "breakdown" (PDict []) ;;
  let breakdown := match b with PDict d => d | _ => [] end in
  p <- py_get parsed "passed_required" (PBool false) ;;
  let passed := truthy p in
  r <- py_get parsed "reasons" PNone ;;
  let reasons := py_or r (PList []) in
  explanation <- py_get parsed "explanation" PNone ;;
  llm <- float_or_none score ;;
  s10 <- float_or_none score_10 ;;
  ret {| id := dict_get cand "id" PNone;
         name := dict_get cand "name" PNone;
         llm_score := llm;
         score_10 := s10;
         breakdown := breakdown;
         passed_required := passed;
         reasons := match reasons with
                    | PList l => l
                    | v => [PStr (py_str repr v)]
                    end;
         raw_llm_output := raw;
         explanation := explanation |}.

Variable config : dict.
Variable llm_client : option scorer.

(** The [try] block of the loop body: scorer call, then parse. *)
Definition attempt (prompt : string) (w : World) : result (pyval * pyval) * World :=
  let '(r, w') := call_llm prompt llm_client w in
  (raw <- r ;; parsed <- parse_llm_json_response json_loads raw ;; ret (raw, parsed), w').

(** The [for] loop, with [results] the list built so far.  Every exception
    of the model is an [Exception], so the [except] clause catches whatever
    the [try] block raises. *)
Fixpoint evaluate_loop (candidates : list dict) (results : list canonical) (w : World)
  : result (list canonical) * World :=
  match candidates with
  | [] => (ret results, w)
  | cand :: rest =>
      let prompt := build_prompt_for_candidate cand config in
      match attempt prompt w with
      | (inl e, w') => evaluate_loop rest (results ++ [failure_record cand e]) w'
      | (inr (raw, parsed), w') =>
          match success_record cand raw parsed with
          | inl e => (inl e, w')
          | inr rec => evaluate_loop rest (results ++ [rec]) w'
          end
      end
  end.

Definition evaluate_candidates_with_llm (candidates : list dict) (w : World)
  : result (list canonical) * World :=
  let '(r, w') := evaluate_loop candidates [] w in
  (results <- r ;; ret (sorted key_ltb sort_key results), w').

End Ranking.

(** ** A reference decoder

    [RefJson.loads] follows the scanner of Python's [json] module on texts
    whose strings carry no backslash escape; it serves to run the ranking
    layer on concrete replies.  The general results below hold for every
    decoder. *)

Module RefJson.

Inductive scan (A : Type) : Type :=
| Ok (a : A) (rest : string) (pos : Z)
| Stop (pos : Z)
| Err (msg : string) (pos : Z)
| Deep.
Arguments Ok {A}.
Arguments Stop {A}.
Arguments Err {A}.
Arguments Deep {A}.

Definition is_ws (c : ascii) : bool :=
  let n := N_of_ascii c in ((n =? 32) || (n =? 9) || (n =? 10) || (n =? 13))%N.

Fixpoint skip_ws (s : string) (pos : Z) : string * Z :=
  match s with
  | String c s' => if is_ws c then skip_ws s' (pos + 1) else (s, pos)
  | EmptyString => (s, pos)
  end.

Definition is_digit (c : ascii) : bool :=
  let n := N_of_ascii c in ((48 <=? n) && (n <=? 57))%N.
Definition digit_val (c : ascii) : Z := Z.of_N (N_of_ascii c) - 48.

(** The longest run of digits: its value, its length, the rest. *)
Fixpoint take_digits (s : string) (acc : Z) (n : Z) : Z * Z * string :=
  match s with
  | String c s' =>
      if is_digit c then take_digits s' (10 * acc + digit_val c) (n + 1)
      else (acc, n, s)
  | EmptyString => (acc, n, s)
  end.

(** [float] of the decimal [m * 10 ^ e], correctly rounded. *)
Definition float_of_decimal (neg : bool) (m e : Z) : spec_float :=
  if m =? 0 then S754_zero neg
  else if 0 <=? e then
    binary_normalize prec emax ((if neg then -1 else 1) * (m * 10 ^ e)) 0 false
  else
    let '(mz, ez, lz) := SFdiv_core_binary prec emax m 0 (10 ^ (- e)) 0 in
    binary_round_aux prec emax neg mz ez lz.

(** The number pattern of the scanner:
    an integer part, an optional fraction, an optional exponent. *)
Definition scan_number (s : string) (pos : Z) : scan pyval :=
  let '(neg, s1, p1) :=
    match s with
    | String "-" s' => (true, s', pos + 1)
    | _ => (false, s, pos)
    end in
  let int_part :=
    match s1 with
    | String "0" s' => Some (0, 1, s')
    | String c _ => if is_digit c then Some (take_digits s1 0 0) else None
    | EmptyString => None
    end in
  match int_part with
  | None => Stop pos
  | Some (i, ni, s2) =>
      let p2 := p1 + ni in
      let '(frac, s3, p3) :=
        match s2 with
        | String "." s' =>
            let '(f, nf, s'') := take_digits s' 0 0 in
            if 0 <? nf then (Some (f, nf), s'', p2 + 1 + nf) else (None, s2, p2)
        | _ => (None, s2, p2)
        end in
      let exp_at (s' : string) (skip : Z) (sign : Z) :=
        let '(x, nx, s'') := take_digits s' 0 0 in
        if 0 <? nx then (Some (sign * x), s'', p3 + skip + nx) else (None, s3, p3) in
      let '(ex, s4, p4) :=
        match s3 with
        | String c s' =>
            if (Ascii.eqb c "e" || Ascii.eqb c "E")%bool then
              match s' with
              | String "-" s'' => exp_at s'' 2 (-1)
              | String "+" s'' => exp_at s'' 2 1
              | _ => exp_at s' 1 1
              end
            else (None, s3, p3)
        | EmptyString => (None, s3, p3)
        end in
      match frac, ex with
      | None, None => Ok (PInt (if neg then - i else i)) s4 p4
      | _, _ =>
          let '(f, nf) := match frac with Some fn => fn | None => (0, 0) end in
          let x := match ex with Some x => x | None => 0 end in
          Ok (PFloat (float_of_decimal neg (i * 10 ^ nf + f) (x - nf))) s4 p4
      end
  end.

Definition dquote : ascii := ascii_of_nat 34.

(** The text after a leading [c], if [s] begins with [c]. *)
Definition starts (c : ascii) (s : string) : option string :=
  match s with
  | String a s' => if Ascii.eqb a c then Some s' else None
  | EmptyString => None
  end.

Definition opens_key (s : string) : bool :=
  match starts dquote s with Some _ => true | None => false end.

(** A string body up to the closing quote, [Stop] when the quote is missing;
    escapes are outside the fragment. *)
Fixpoint scan_string (s : string) (pos : Z) : scan string :=
  match s with
  | EmptyString => Stop pos
  | String c s' =>
      if Ascii.eqb c dquote then Ok EmptyString s' (pos + 1)
      else if (N_of_ascii c <? 32)%N then Err "Invalid control character at" pos
      else if Ascii.eqb c "\" then Err "Invalid \escape" pos
      else match scan_string s' (pos + 1) with
           | Ok r rest p => Ok (String c r) rest p
           | Stop p => Stop p
           | Err m p => Err m p
           | Deep => Deep
           end
  end.

(** [dict(pairs)]: a repeated key keeps its first place and its last value. *)
Fixpoint dict_set (d : dict) (k : string) (v : pyval) : dict :=
  match d with
  | [] => [(k, v)]
  | (k', v') :: d' => if (k' =? k)%string then (k, v) :: d' else (k', v') :: dict_set d' k v
  end.

Definition unterminated : string := "Unterminated string starting at".
Definition expecting_name : string :=
  "Expecting property name enclosed in double quotes".

Fixpoint scan_once (fuel : nat) (s : string) (pos : Z) {struct fuel} : scan pyval :=
  match fuel with
  | O => Deep
  | S fuel' =>
      match s with
      | EmptyString => Stop pos
      | String c s' =>
          if Ascii.eqb c dquote then
            match scan_string s' (pos + 1) with
            | Ok r rest p => Ok (PStr r) rest p
            | Stop _ => Err unterminated pos
            | Err m p => Err m p
            | Deep => Deep
            end
          else if Ascii.eqb c "{" then
            let '(s1, p1) := skip_ws s' (pos + 1) in
            match starts "}" s1 with
            | Some s2 => Ok (PDict []) s2 (p1 + 1)
            | None =>
                if opens_key s1 then scan_pairs fuel' [] s1 p1
                else Err expecting_name p1
            end
          else if Ascii.eqb c "[" then
            let '(s1, p1) := skip_ws s' (pos + 1) in
            match starts "]" s1 with
            | Some s2 => Ok (PList []) s2 (p1 + 1)
            | None => scan_items fuel' [] s1 p1
            end
          else if prefix "null" s then Ok PNone (substring 4 (String.length s) s) (pos + 4)
          else if prefix "true" s then Ok (PBool true) (substring 4 (String.length s) s) (pos + 4)
          else if prefix "false" s then Ok (PBool false) (substring 5 (String.length s) s) (pos + 5)
          else
            match scan_number s pos with
            | Ok v rest p => Ok v rest p
            | _ =>
                if prefix "NaN" s then Ok (PFloat S754_nan) (substring 3 (String.length s) s) (pos + 3)
                else if prefix "Infinity" s then
                  Ok (PFloat (S754_infinity false)) (substring 8 (String.length s) s) (pos + 8)
                else if prefix "-Infinity" s then
                  Ok (PFloat (S754_infinity true)) (substring 9 (String.length s) s) (pos + 9)
                else Stop pos
            end
      end
  end

(** After an opening brace or a comma, at the quote that opens a key. *)
with scan_pairs (fuel : nat) (acc : dict) (s : string) (pos : Z) {struct fuel} : scan pyval :=
  match fuel with
  | O => Deep
  | S fuel' =>
      match s with
      | String _ s0 =>
          match scan_string s0 (pos + 1) with
          | Ok k s1 p1 =>
              let '(s2, p2) := skip_ws s1 p1 in
              match starts ":" s2 with
              | Some s3 =>
                  let '(s4, p4) := skip_ws s3 (p2 + 1) in
                  match scan_once fuel' s4 p4 with
                  | Ok v s5 p5 =>
                      let acc' := dict_set acc k v in
                      let '(s6, p6) := skip_ws s5 p5 in
                      match starts "}" s6, starts "," s6 with
                      | Some s7, _ => Ok (PDict acc') s7 (p6 + 1)
                      | None, Some s7 =>
                          let '(s8, p8) := skip_ws s7 (p6 + 1) in
                          if opens_key s8 then scan_pairs fuel' acc' s8 p8
                          else Err expecting_name p8
                      | None, None => Err "Expecting ',' delimiter" p6
                      end
                  | Stop p => Err "Expecting value" p
                  | Err m p => Err m p
                  | Deep => Deep
                  end
              | None => Err "Expecting ':' delimiter" p2
              end
          | Stop _ => Err unterminated pos
          | Err m p => Err m p
          | Deep => Deep
          end
      | EmptyString => Err expecting_name pos
      end
  end

(** After an opening bracket or a comma, at the next element. *)
with scan_items (fuel : nat) (acc : list pyval) (s : string) (pos : Z) {struct fuel} : scan pyval :=
  match fuel with
  | O => Deep
  | S fuel' =>
      match scan_once fuel' s pos with
      | Ok v s1 p1 =>
          let acc' := acc ++ [v] in
          let '(s2, p2) := skip_ws s1 p1 in
          match starts "]" s2, starts "," s2 with
          | Some s3, _ => Ok (PList acc') s3 (p2 + 1)
          | None, Some s3 =>
              let '(s4, p4) := skip_ws s3 (p2 + 1) in
              scan_items fuel' acc' s4 p4
          | None, None => Err "Expecting ',' delimiter" p2
          end
      | Stop p => Err "Expecting value" p
      | Err m p => Err m p
      | Deep => Deep
      end
  end.

Definition too_deep : exn :=
  Exn (OtherException "RecursionError") "maximum recursion depth exceeded".

(** [json.loads(s)]: one value between optional white space, nothing after. *)
Definition loads (s : string) : loads_result :=
  let '(s0, p0) := skip_ws s 0 in
  match scan_once (2 * String.length s + 2) s0 p0 with
  | Ok v rest p =>
      let '(rest', p') := skip_ws rest p in
      match rest' with
      | EmptyString => Loaded v
      | _ => DecodeError "Extra data" p'
      end
  | Stop p => DecodeError "Expecting value" p
  | Err m p => DecodeError m p
  | Deep => LoadsRaised too_deep
  end.

End RefJson.


(** Sample data of the examples. *)
Fixpoint zeros (n : nat) : string :=
  match n with
  | O => EmptyString
  | S n' => String "0" (zeros n')
  end.

(** [1.0], [10.0] and [0.5] in binary64. *)
Definition one : spec_float := S754_finite false 4503599627370496 (-52).
Definition ten : spec_float := S754_finite false 5629499534213120 (-49).
Definition half : spec_float := S754_finite false 4503599627370496 (-53).
Definition two : spec_float := S754_finite false 4503599627370496 (-51).

(** ** A scripted scorer

    The stub used to run the ranking loop: the world is the list of answers
    still to give, one per call. *)

Module Stub.

Definition script : Type := list (result pyval).

Definition scripted_client : scorer script :=
  fun _ w =>
    match w with
    | [] => (raise RuntimeError "script exhausted", [])
    | r :: w' => (r, w')
    end.

Definition candidate (i n : string) : dict := [("id", PStr i); ("name", PStr n)].
Definition reply (body : string) : result pyval := inr (PStr body).

(** [{"score": <digits>}]. *)
Definition score_reply (digits : string) : string :=
  ("{" ++ q "score" ++ ": " ++ digits ++ "}")%string.

(** The ranking function on the reference decoder and the scripted scorer,
    with stubs for [json.dumps] and [repr]. *)
Definition run (candidates : list dict) (w : script) : result (list canonical) * script :=
  evaluate_candidates_with_llm script RefJson.loads (fun _ => "") (fun _ => "")
    None [] (Some scripted_client) candidates w.

(** The record the loop builds from a reply that holds a score and nothing
    else. *)
Definition scored_record (cand : dict) (score : spec_float) (raw : string) : canonical :=
  {| id := dict_get cand "id" PNone;
     name := dict_get cand "name" PNone;
     llm_score := Some score;
     score_10 := Some (fmul score ten);
     breakdown := [];
     passed_required := false;
     reasons := [];
     raw_llm_output := PStr raw;
     explanation := PNone |}.

(** Three candidates, the second without an [id]; the scorer answers the
    first and the third and fails on the second. *)
Definition cand_a : dict := candidate "resumes/a.pdf" "a.pdf".
Definition cand_b : dict := [("name", PStr "b.pdf")].
Definition cand_c : dict := candidate "resumes/c.pdf" "c.pdf".
Definition outage : exn :=
  Exn RuntimeError "Error calling Cloudflare AI API: connection reset".
Definition scenario : script :=
  [reply (score_reply "0.5"); inl outage; reply (score_reply "1")].
Definition scenario_ranking : list canonical :=
  [scored_record cand_c one (score_reply "1");
   scored_record cand_a half (score_reply "0.5");
   failure_record cand_b outage].

End Stub.

(** ** Vocabulary of the statements *)

(** Positions of a character in a string. *)
Definition absent (c : ascii) (s : string) : Prop := forall k, get k s <> Some c.
Definition first_at (c : ascii) (s : string) (n : nat) : Prop :=
  get n s = Some c /\ forall k, (k < n)%nat -> get k s <> Some c.
Definition last_at (c : ascii) (s : string) (n : nat) : Prop :=
  get n s = Some c /\ forall k, (n < k)%nat -> get k s <> Some c.


(** The body of the loop for one candidate: the record it appends, or the
    exception that leaves the loop. *)
Definition loop_body {World : Type} (json_loads : string -> loads_result)
    (json_dumps : pyval -> string) (repr : pyval -> string)
    (llm_backend : option (option (scorer World))) (config : dict)
    (llm_client : option (scorer World)) (cand : dict) (w : World)
  : result canonical * World :=
  match attempt World json_loads llm_backend llm_client
          (build_prompt_for_candidate json_dumps cand config) w with
  | (inl e, w') => (ret (failure_record cand e), w')
  | (inr (raw, parsed), w') => (success_record repr cand raw parsed, w')
  end.

(** A record carries the identity of a candidate. *)
Definition carries (cand : dict) (r : canonical) : Prop :=
  id r = dict_get cand "id" PNone /\ name r = dict_get cand "name" PNone.

Definition identity_of_candidate (cand : dict) : pyval * pyval :=
  (dict_get cand "id" PNone, dict_get cand "name" PNone).
Definition identity_of_record (r : canonical) : pyval * pyval := (id r, name r).

(** Order of the output.  [ranked_before a b]: [a] may stand before [b] in a
    ranking, that is, [a] has a score and [b] none, or both have none, or both
    have one and that of [a] is at least that of [b]. *)
Definition ranked_before (a b : canonical) : Prop :=
  match llm_score a, llm_score b with
  | Some x, Some y => SFleb y x = true
  | Some _, None => True
  | None, Some _ => False
  | None, None => True
  end.

Definition no_nan (r : canonical) : Prop := llm_score r <> Some S754_nan.

(** The records whose score equals [f] under [==], and those without one. *)
Definition same_score (f : spec_float) (r : canonical) : bool :=
  match llm_score r with
  | Some x => SFeqb x f
  | None => false
  end.
Definition unscored (r : canonical) : bool := is_none (llm_score r).


(** An [int] score that both conversions to [float] accept: [float(score)]
    for [llm_score] and [float(score * 10)] for [score_10]. *)
Definition score_in_range (v : pyval) : Prop :=
  forall z, v = PInt z ->
    is_inf (float_of_Z z) = false /\ is_inf (float_of_Z (z * 10)) = false.

(** A scorer whose calls fail two times out of three: it answers
    [{"score": 0.5}], then raises, then answers without an object, and so on;
    the world counts the calls. *)
Definition flaky_client : scorer nat :=
  fun _ w =>
    (match Nat.modulo w 3 with
     | 0%nat => inr (PStr (Stub.score_reply "0.5"))
     | 1%nat => inl Stub.outage
     | _ => inr (PStr "no object here")
     end, S w).

(** ** generate_sample_resumes.py *)

Module SampleResumes.

(** The byte of a number below 256. *)
Definition byte_of (n : N) : byte :=
  match Byte.of_N (n mod 256) with
  | Some b => b
  | None => x00
  end.

(** [s.encode("utf-8", errors="replace")] on a list of code points: one to
    four bytes per code point, a question mark for a lone surrogate.  A [str]
    holds no code point above [0x10FFFF]; the encoder gives a question mark for
    such a number too. *)
Definition utf8_char (c : N) : list byte :=
  (if c <? 128 then [byte_of c]
   else if c <? 2048 then [byte_of (192 + c / 64); byte_of (128 + c mod 64)]
   else if (55296 <=? c) && (c <=? 57343) then [x3f]
   else if c <? 65536 then
     [byte_of (224 + c / 4096); byte_of (128 + (c / 64) mod 64); byte_of (128 + c mod 64)]
   else if c <=? 1114111 then
     [byte_of (240 + c / 262144); byte_of (128 + (c / 4096) mod 64);
      byte_of (128 + (c / 64) mod 64); byte_of (128 + c mod 64)]
   else [x3f])%N.

Definition encode_utf8_replace (s : list N) : list byte := flat_map utf8_char s.

(** The code points of ["%PDF-1.4\n"] and of ["\n%%EOF\n"]. *)
Definition pdf_head : list N := [37; 80; 68; 70; 45; 49; 46; 52; 10]%N.
Definition pdf_tail : list N := [10; 37; 37; 69; 79; 70; 10]%N.

Definition make_minimal_pdf_bytes (text : list N) : list byte :=
  let body := pdf_head ++ text ++ pdf_tail in
  encode_utf8_replace body.

End SampleResumes.

(** The keys [normalize_candidate] guarantees, each with its default. *)
Definition normalize_defaults : dict :=
  [("education", PDict []); ("skills", PDict []); ("general_skills", PList []);
   ("personal_information", PDict []); ("available_types_of_work", PList [])].

(** The last character of a string. *)
Fixpoint last_char (s : string) : option ascii :=
  match s with
  | EmptyString => None
  | String c s' => match last_char s' with None => Some c | r => r end
  end.

(** The decidable form of [absent]. *)
Fixpoint lacks (c : ascii) (s : string) : bool :=
  match s with
  | EmptyString => true
  | String a s' => negb (Ascii.eqb a c) && lacks c s'
  end.

(** How the reply parser can fail: the decoder raised something other than a
    decode error, or it refused the snippet twice and the message reports the
    first refusal with a preview of the snippet. *)
Definition decoder_raised (json_loads : string -> loads_result) (e : exn) : Prop :=
  exists s, json_loads s = LoadsRaised e.

Definition reports_snippet (json_loads : string -> loads_result) (e : exn) : Prop :=
  exists snippet msg pos msg' pos' preview,
    json_loads snippet = DecodeError msg pos
    /\ json_loads (snippet ++ "}")%string = DecodeError msg' pos'
    /\ exc_str e = ("Failed to parse JSON snippet: " ++ msg ++ " (pos "
                      ++ Str.of_Z pos ++ "). Snippet preview: " ++ preview)%string
    /\ String.length preview = Nat.min 200 (String.length snippet)
    /\ absent Str.nl_char preview.

(** A scorer that answers by [answer] and keeps the prompts it was given, in
    the order of the calls. *)
Definition logging_client (answer : string -> result pyval) : scorer (list string) :=
  fun prompt w => (answer prompt, w ++ [prompt]).

(** The record of a candidate whose scorer call or parse failed. *)
Definition failed (r : canonical) : Prop :=
  raw_llm_output r = PNone /\ llm_score r = None /\ score_10 r = None
  /\ breakdown r = [] /\ passed_required r = false /\ explanation r = PNone
  /\ exists msg, reasons r = [PStr ("LLM error: " ++ msg)%string].

(** The failure records of [candidates] for one and the same exception. *)
Definition all_failed (e : exn) (candidates : list dict) : list canonical :=
  map (fun cand => failure_record cand e) candidates.

(** ** app.py

    The script reads the resume folder, builds one candidate per file that
    loaded, has them ranked and prints the ranking.  The folder listing, the
    joining of paths and the opening of files are parameters. *)

Module App.

(** [str.lower] on one character (code points below 256): the letters
    [A]-[Z], and the capital letters of the Latin-1 supplement. *)
Definition lower_char (c : ascii) : ascii :=
  let n := N_of_ascii c in
  if (((65 <=? n) && (n <=? 90)) || ((192 <=? n) && (n <=? 214))
      || ((216 <=? n) && (n <=? 222)))%N
  then ascii_of_N (n + 32) else c.

Fixpoint lower (s : string) : string :=
  match s with
  | EmptyString => EmptyString
  | String c s' => String (lower_char c) (lower s')
  end.

(** Line 115: [filename.lower().endswith(".pdf")]. *)
Definition is_pdf_name (filename : string) : bool :=
  Str.endswith (lower filename) ".pdf".

Definition resume_folder : string := "./resumes".

Record pdf_file : Type := PdfFile {
  filename : string;
  path : string;
  content : PdfParser.bytes
}.

Section Load.

(** [os.path.join]. *)
Variable path_join : string -> string -> string.
(** [open(path, "rb")]: it raises, or gives a file whose [read] answers. *)
Variable open_rb : string -> result PdfParser.read_result.

(** The body of the [try] block of lines 117-125. *)
Definition load_one (filepath : string) : result PdfParser.bytes :=
  f <- open_rb filepath ;; PdfParser.load_pdf_binary (PdfParser.FileLike f).

(** Lines 114-127: the loop over the folder listing, with [pdf_files] the
    list built so far.  A file that fails to load is skipped. *)
Fixpoint load_resumes (listing : list string) (pdf_files : list pdf_file) : list pdf_file :=
  match listing with
  | [] => pdf_files
  | name :: rest =>
      if is_pdf_name name then
        let filepath := path_join resume_folder name in
        match load_one filepath with
        | inr pdf_bytes => load_resumes rest (pdf_files ++ [PdfFile name filepath pdf_bytes])
        | inl _ => load_resumes rest pdf_files
        end
      else load_resumes rest pdf_files
  end.

End Load.

(** [bytes.hex()]: two lowercase digits for each byte. *)
Definition hex_digit (d : N) : ascii :=
  ascii_of_N (if (d <? 10)%N then 48 + d else 87 + d).

Fixpoint hex (data : PdfParser.bytes) : string :=
  match data with
  | [] => EmptyString
  | b :: data' =>
      let n := Byte.to_N b in
      String (hex_digit (n / 16)) (String (hex_digit (n mod 16)) (hex data'))
  end.

(** Lines 146-152: the candidate built from a loaded file. *)
Definition candidate_of (pdf : pdf_file) : dict :=
  [("id", PStr (path pdf));
   ("name", PStr (filename pdf));
   ("pdf_preview", PStr (Str.slice (hex (content pdf)) None (Some 100)))].

Definition candidates_of (pdf_files : list pdf_file) : list dict :=
  map candidate_of pdf_files.

(** [sep.join(items)], with [i] the index of the first of [items]: every
    item has to be a [str]. *)
Fixpoint join_from (sep : string) (items : list pyval) (i : Z) : result string :=
  match items with
  | [] => ret EmptyString
  | v :: rest =>
      match v with
      | PStr s =>
          tail <- join_from sep rest (i + 1) ;;
          ret (match rest with [] => s | _ => s ++ sep ++ tail end)%string
      | _ =>
          raise TypeError ("sequence item " ++ Str.of_Z i ++ ": expected str instance, "
                             ++ type_name v ++ " found")%string
      end
  end.

Definition join (sep : string) (items : list pyval) : result string :=
  join_from sep items 0.

(** Lines 189-190: the details printed for a ranked record, if any:
    [', '.join(result['reasons'][:2])] when [reasons] is not empty. *)
Definition details (r : canonical) : option (result string) :=
  match reasons r with
  | [] => None
  | _ => Some (join ", " (firstn 2 (reasons r)))
  end.

End App.

(** * Properties *)

(** ** Searching a character *)

Section Find.

Variable c : ascii.
Let sub : string := String c EmptyString.

Lemma prefix_char a s : prefix sub (String a s) = Ascii.eqb c a.
Proof.
  unfold sub; simpl. destruct (ascii_dec c a) as [->|ne].
  - rewrite Ascii.eqb_refl. now destruct s.
  - symmetry. now apply Ascii.eqb_neq.
Qed.

Lemma absent_tail a s : absent c (String a s) -> a <> c /\ absent c s.
Proof.
  intros H; split.
  - intros ->. now apply (H 0%nat).
  - intros k. apply (H (S k)).
Qed.

Lemma find_from_absent s : forall i, absent c s -> Str.find_from sub s i = -1.
Proof.
  induction s as [|a s IH]; intros i H.
  - reflexivity.
  - destruct (absent_tail _ _ H) as [ne Hs].
    cbn [Str.find_from]. rewrite prefix_char.
    replace (Ascii.eqb c a) with false by (symmetry; apply Ascii.eqb_neq; congruence).
    now apply IH.
Qed.

Lemma find_from_first s : forall n i,
  first_at c s n -> Str.find_from sub s i = i + Z.of_nat n.
Proof.
  induction s as [|a s IH]; intros n i [Hn Hlt].
  - now destruct n.
  - cbn [Str.find_from]. rewrite prefix_char. destruct n as [|n].
    + simpl in Hn. injection Hn as ->. rewrite Ascii.eqb_refl. lia.
    + replace (Ascii.eqb c a) with false.
      * rewrite (IH n (i + 1)); [lia|]. split; [exact Hn|].
        intros k Hk. apply (Hlt (S k)). lia.
      * symmetry. apply Ascii.eqb_neq. intros ->.
        apply (Hlt 0%nat); [lia|reflexivity].
Qed.

Lemma rfind_from_absent s : forall i, absent c s -> Str.rfind_from sub s i = -1.
Proof.
  induction s as [|a s IH]; intros i H.
  - reflexivity.
  - destruct (absent_tail _ _ H) as [ne Hs].
    cbn [Str.rfind_from]. rewrite (IH (i + 1) Hs), prefix_char. simpl.
    replace (Ascii.eqb c a) with false by (symmetry; apply Ascii.eqb_neq; congruence).
    reflexivity.
Qed.

Lemma rfind_from_last s : forall n i,
  0 <= i -> last_at c s n -> Str.rfind_from sub s i = i + Z.of_nat n.
Proof.
  induction s as [|a s IH]; intros n i Hi [Hn Hgt].
  - now destruct n.
  - cbn [Str.rfind_from]. destruct n as [|n].
    + rewrite rfind_from_absent.
      * simpl in Hn. injection Hn as ->.
        rewrite prefix_char, Ascii.eqb_refl. simpl. lia.
      * intros k. apply (Hgt (S k)). lia.
    + rewrite (IH n (i + 1)); [|lia|].
      * replace (i + 1 + Z.of_nat n =? -1) with false by (symmetry; apply Z.eqb_neq; lia).
        lia.
      * split; [exact Hn|]. intros k Hk. apply (Hgt (S k)). lia.
Qed.

End Find.

Lemma find_absent c s : absent c s -> Str.find s (String c EmptyString) = -1.
Proof. apply find_from_absent. Qed.

Lemma find_first c s n : first_at c s n -> Str.find s (String c EmptyString) = Z.of_nat n.
Proof. intros H. unfold Str.find. now rewrite (find_from_first c s n 0 H). Qed.

Lemma rfind_absent c s : absent c s -> Str.rfind s (String c EmptyString) = -1.
Proof. apply rfind_from_absent. Qed.

Lemma rfind_last c s n : last_at c s n -> Str.rfind s (String c EmptyString) = Z.of_nat n.
Proof. intros H. unfold Str.rfind. rewrite (rfind_from_last c s n 0); [reflexivity|lia|exact H]. Qed.

Lemma find_from_found c s : forall i r,
  Str.find_from (String c EmptyString) s i = r -> r <> -1 -> 0 <= i ->
  exists n, r = i + Z.of_nat n /\ get n s = Some c.
Proof.
  induction s as [|a s IH]; intros i r H Hr Hi.
  - cbn in H. congruence.
  - cbn [Str.find_from] in H. rewrite prefix_char in H.
    destruct (Ascii.eqb_spec c a) as [->|ne].
    + exists 0%nat. split; [lia|reflexivity].
    + destruct (IH (i + 1) r H Hr) as (n & -> & Hn); [lia|].
      exists (S n). split; [lia|exact Hn].
Qed.

Lemma substring_head c s : forall n m,
  get n s = Some c -> exists rest, substring n (S m) s = String c rest.
Proof.
  induction s as [|a s IH]; intros n m H; [now destruct n|].
  destruct n as [|n].
  - injection H as ->. cbn. eauto.
  - cbn. now apply IH.
Qed.

Lemma get_length c s : forall n, get n s = Some c -> (n < String.length s)%nat.
Proof.
  induction s as [|a s IH]; intros n H; [now destruct n|].
  destruct n as [|n]; cbn; [lia|]. apply IH in H. lia.
Qed.

(** Past the guard of line 123 the snippet begins with an opening brace. *)
Lemma snippet_opens text :
  let start := Str.find text "{" in
  let end_ := Str.rfind text "}" in
  (start =? -1) || (end_ =? -1) || (end_ <? start) = false ->
  exists rest, Str.slice text (Some start) (Some (end_ + 1)) = String "{" rest.
Proof.
  intros start end_ H.
  apply orb_false_iff in H as [H Hlt]. apply orb_false_iff in H as [Hs He].
  apply Z.eqb_neq in Hs. apply Z.ltb_ge in Hlt.
  destruct (find_from_found "{" text 0 start eq_refl Hs) as (n & Hn & Hg); [lia|].
  pose proof (get_length _ _ _ Hg) as Hl.
  unfold Str.slice, Str.clamp, Str.len.
  replace (start <? 0) with false by (symmetry; apply Z.ltb_ge; lia).
  replace (end_ + 1 <? 0) with false by (symmetry; apply Z.ltb_ge; lia).
  replace (Z.to_nat (Z.max 0 (Z.min (Z.of_nat (String.length text)) start))) with n by lia.
  set (h := Z.max 0 (Z.min (Z.of_nat (String.length text)) (end_ + 1))).
  set (l := Z.max 0 (Z.min (Z.of_nat (String.length text)) start)).
  assert (Hm : exists m, Z.to_nat (h - l) = S m).
  { exists (Z.to_nat (h - l) - 1)%nat. subst h l. lia. }
  destruct Hm as [m ->]. now apply substring_head.
Qed.

(** ** The reply parser *)

(** When the guard of line 123 fires, the decoder is never consulted. *)
Lemma parse_text_guard json_loads text :
  (Str.find text "{" =? -1) || (Str.rfind text "}" =? -1)
    || (Str.rfind text "}" <? Str.find text "{") = true ->
  parse_text json_loads text = raise ValueError no_json_object.
Proof. intros H. unfold parse_text. now rewrite H. Qed.

(** C5. A reply whose text, once trimmed and freed of its fences, has no
    opening brace, or no closing brace, or has its last closing brace before
    its first opening brace, makes [parse_llm_json_response] raise the
    [ValueError] "No JSON object found in LLM response", whatever the decoder;
    no value is returned. *)
Theorem parse_rejects_missing_object (json_loads : string -> loads_result) (raw : string) :
  let text := strip_fences (Str.strip raw) in
  (absent "{" text \/ absent "}" text
   \/ exists i j, first_at "{" text i /\ last_at "}" text j /\ (j < i)%nat) ->
  parse_llm_json_response json_loads (PStr raw) = raise ValueError no_json_object.
Proof.
  intros text H. unfold parse_llm_json_response. simpl. fold text.
  apply parse_text_guard.
  destruct H as [H | [H | (i & j & Hi & Hj & Hlt)]].
  - now rewrite (find_absent _ _ H).
  - rewrite (rfind_absent _ _ H). apply orb_true_iff; left. apply orb_true_r.
  - rewrite (find_first _ _ _ Hi), (rfind_last _ _ _ Hj).
    apply orb_true_iff; right. apply Z.ltb_lt. lia.
Qed.

Lemma parse_rejects_missing_object_witness :
  parse_llm_json_response RefJson.loads (PStr "  } nothing to see { ")
  = raise ValueError no_json_object.
Proof.
  apply parse_rejects_missing_object. right; right. exists 17%nat, 0%nat.
  split; [|split]; [split; [reflexivity|] | split; [reflexivity|] | lia].
  - intros k Hk. do 17 (destruct k as [|k]; [discriminate|]). lia.
  - intros k Hk. destruct k as [|k]; [lia|].
    do 17 (destruct k as [|k]; [discriminate|]). discriminate.
Defined.

(** What the repair of line 131 does when it is reached: if the snippet does
    not decode and the snippet with one more closing brace does, that value is
    returned. *)
Lemma parse_text_repaired json_loads text msg pos v :
  let start := Str.find text "{" in
  let end_ := Str.rfind text "}" in
  let snippet := Str.slice text (Some start) (Some (end_ + 1)) in
  (start =? -1) || (end_ =? -1) || (end_ <? start) = false ->
  json_loads snippet = DecodeError msg pos ->
  json_loads (snippet ++ "}")%string = Loaded v ->
  parse_text json_loads text = ret v.
Proof.
  intros start end_ snippet G H1 H2. unfold parse_text.
  fold start end_. rewrite G. fold snippet. now rewrite H1, H2.
Qed.

(** C4, at the failing input.  [{"score": 0.5}] is a well-formed object;
    without its closing brace the text holds no closing brace at all, so the
    guard of line 123 raises before the repair of line 131 can be tried,
    whatever the decoder. *)
Theorem repair_not_reached_without_brace (json_loads : string -> loads_result) :
  let complete := Stub.score_reply "0.5" in
  let truncated := ("{" ++ q "score" ++ ": 0.5")%string in
  complete = (truncated ++ "}")%string
  /\ RefJson.loads complete = Loaded (PDict [("score", PFloat half)])
  /\ parse_llm_json_response json_loads (PStr truncated) = raise ValueError no_json_object.
Proof. repeat split; vm_compute; reflexivity. Qed.

(** The same slicing loses members: when an inner object closes before the
    missing brace, the snippet ends at the inner brace and the repaired text
    decodes to an object without the members that followed. *)
Lemma repair_drops_later_members :
  let complete := ("{" ++ q "breakdown" ++ ": {" ++ q "general" ++ ": 1}, "
                     ++ q "score" ++ ": 0.5}")%string in
  let truncated := ("{" ++ q "breakdown" ++ ": {" ++ q "general" ++ ": 1}, "
                      ++ q "score" ++ ": 0.5")%string in
  RefJson.loads complete
    = Loaded (PDict [("breakdown", PDict [("general", PInt 1)]); ("score", PFloat half)])
  /\ parse_llm_json_response RefJson.loads (PStr truncated)
     = ret (PDict [("breakdown", PDict [("general", PInt 1)])]).
Proof. split; vm_compute; reflexivity. Qed.

(** When the truncated text still ends in the brace of an inner object, and
    nothing but that brace was lost, the repair recovers the object. *)
Lemma repair_recovers_nested_tail :
  let truncated := ("{" ++ q "score" ++ ": 0.5, " ++ q "breakdown" ++ ": {"
                      ++ q "general" ++ ": 1}")%string in
  RefJson.loads (truncated ++ "}")
    = Loaded (PDict [("score", PFloat half); ("breakdown", PDict [("general", PInt 1)])])
  /\ parse_llm_json_response RefJson.loads (PStr truncated)
     = ret (PDict [("score", PFloat half); ("breakdown", PDict [("general", PInt 1)])]).
Proof. split; vm_compute; reflexivity. Qed.

(** ** Canonicalization *)

Section Canonicalization.

Variable repr : pyval -> string.
Variables (cand : dict) (raw : pyval) (parsed : dict).

Let score : pyval := dict_get parsed "score" PNone.
Let score_x10 : pyval := if is_int_or_float score then times_ten score else PNone.
Let kept_reasons : pyval := py_or (dict_get parsed "reasons" PNone) (PList []).

(** On a mapping the only values that can raise are the two conversions to
    [float]. *)
Lemma success_record_dict :
  success_record repr cand raw (PDict parsed) =
    (llm <- float_or_none score ;;
     s10 <- float_or_none score_x10 ;;
     ret {| id := dict_get cand "id" PNone;
            name := dict_get cand "name" PNone;
            llm_score := llm;
            score_10 := s10;
            breakdown := match dict_get parsed "breakdown" (PDict []) with
                         | PDict d => d
                         | _ => []
                         end;
            passed_required := truthy (dict_get parsed "passed_required" (PBool false));
            reasons := match kept_reasons with
                       | PList l => l
                       | _ => [PStr (py_str repr kept_reasons)]
                       end;
            raw_llm_output := raw;
            explanation := dict_get parsed "explanation" PNone |}).
Proof. reflexivity. Qed.

Lemma success_record_fields r :
  success_record repr cand raw (PDict parsed) = inr r ->
  float_or_none score = inr (llm_score r)
  /\ float_or_none score_x10 = inr (score_10 r)
  /\ carries cand r
  /\ reasons r = match kept_reasons with
                 | PList l => l
                 | _ => [PStr (py_str repr kept_reasons)]
                 end
  /\ passed_required r = truthy (dict_get parsed "passed_required" (PBool false))
  /\ raw_llm_output r = raw.
Proof.
  rewrite success_record_dict.
  destruct (float_or_none score) as [e|llm]; [discriminate|].
  destruct (float_or_none score_x10) as [e|s10]; [discriminate|].
  cbn [bind ret]. intros [= <-]. cbn. repeat split; reflexivity.
Qed.

(** A [float] score is kept, and [score_10] is its binary64 product by ten. *)
Lemma float_score_kept f :
  score = PFloat f ->
  exists r, success_record repr cand raw (PDict parsed) = inr r
            /\ llm_score r = Some f /\ score_10 r = Some (fmul f (float_of_Z 10)).
Proof.
  intros H. rewrite success_record_dict. subst score_x10. rewrite H.
  cbn. eexists; repeat split.
Qed.

(** A value that is neither [bool], [int] nor [float], or no value at all,
    leaves both scores absent. *)
Lemma other_score_absent :
  is_int_or_float score = false ->
  exists r, success_record repr cand raw (PDict parsed) = inr r
            /\ llm_score r = None /\ score_10 r = None.
Proof.
  intros H. rewrite success_record_dict. subst score_x10. rewrite H.
  unfold float_or_none. rewrite H. cbn. eexists; repeat split.
Qed.

(** C6, as the code has it.  Whenever canonicalization returns, a list under
    [reasons] is kept as it is; a value that is not a list and is truthy is
    replaced by the one-element list of its string rendering; a value that is
    not a list and is falsy (absent, [None], [False], zero, the empty string or
    the empty mapping) gives the empty list. *)
Theorem reasons_canonical (r : canonical) :
  success_record repr cand raw (PDict parsed) = inr r ->
  let v := dict_get parsed "reasons" PNone in
  (forall l, v = PList l -> reasons r = l)
  /\ (is_list v = false -> truthy v = true -> reasons r = [PStr (py_str repr v)])
  /\ (is_list v = false -> truthy v = false -> reasons r = []).
Proof.
  intros H v. apply success_record_fields in H as (_ & _ & _ & Hr & _).
  rewrite Hr. subst kept_reasons. fold v. unfold py_or. repeat split.
  - intros l ->. now destruct l.
  - intros Hl Ht. rewrite Ht. now destruct v.
  - intros _ Ht. now rewrite Ht.
Qed.

End Canonicalization.

(** An [int] score in range is converted, and [score_10] is the conversion
    of its integer product by ten. *)
Lemma int_score_kept repr cand raw parsed z :
  dict_get parsed "score" PNone = PInt z ->
  score_in_range (PInt z) ->
  exists r, success_record repr cand raw (PDict parsed) = inr r
            /\ llm_score r = Some (float_of_Z z)
            /\ score_10 r = Some (float_of_Z (z * 10)).
Proof.
  intros H Hr. destruct (Hr z eq_refl) as [H1 H2].
  rewrite success_record_dict, H.
  unfold float_or_none, py_float, float_of_int. cbn [is_int_or_float times_ten].
  rewrite H1, H2. cbn. eexists; repeat split.
Qed.

Lemma reasons_canonical_witness :
  exists r, success_record (fun _ => "5") [] PNone (PDict [("reasons", PInt 5)]) = inr r
            /\ reasons r = [PStr "5"].
Proof.
  eexists. split; [reflexivity|].
  exact (proj1 (proj2 (reasons_canonical (fun _ => "5") [] PNone [("reasons", PInt 5)]
                         _ eq_refl)) eq_refl eq_refl).
Defined.

(** C6 fails as stated: the number [0] under [reasons] is not a list, and
    the record holds the empty list for it. *)
Lemma falsy_reasons_dropped :
  exists r, success_record (fun _ => "0") [] PNone (PDict [("reasons", PInt 0)]) = inr r
            /\ dict_mem [("reasons", PInt 0)] "reasons" = true
            /\ is_list (PInt 0) = false
            /\ reasons r = [].
Proof. eexists. repeat split. Qed.

(** C7, at the failing input.  The reply [{"score": true}] carries a boolean
    under [score]; [isinstance(True, (int, float))] holds, so the record has
    [llm_score = 1.0] and [score_10 = 10.0] where the claim wants both
    absent. *)
Theorem boolean_score_counts_as_number :
  Stub.run [Stub.candidate "a" "A"] [Stub.reply (Stub.score_reply "true")]
  = (ret [ {| id := PStr "a"; name := PStr "A";
              llm_score := Some one; score_10 := Some ten;
              breakdown := []; passed_required := false; reasons := [];
              raw_llm_output := PStr (Stub.score_reply "true");
              explanation := PNone |} ], []).
Proof. vm_compute. reflexivity. Qed.

(** ** The ranking loop *)

Section Loop.

Variable World : Type.
Variable json_loads : string -> loads_result.
Variable json_dumps : pyval -> string.
Variable repr : pyval -> string.
Variable llm_backend : option (option (scorer World)).
Variable config : dict.
Variable llm_client : option (scorer World).

Local Notation attempt' := (attempt World json_loads llm_backend llm_client).
Local Notation prompt_for := (fun cand => build_prompt_for_candidate json_dumps cand config).
Local Notation body := (loop_body json_loads json_dumps repr llm_backend config llm_client).
Local Notation loop :=
  (evaluate_loop World json_loads json_dumps repr llm_backend config llm_client).
Local Notation evaluate :=
  (evaluate_candidates_with_llm World json_loads json_dumps repr llm_backend config llm_client).

Lemma loop_cons cand rest acc w :
  loop (cand :: rest) acc w =
    match body cand w with
    | (inl e, w') => (inl e, w')
    | (inr rec, w') => loop rest (acc ++ [rec]) w'
    end.
Proof.
  cbn [evaluate_loop]. unfold loop_body.
  destruct (attempt' (prompt_for cand) w) as [[e|[raw parsed]] w']; [reflexivity|].
  now destruct (success_record repr cand raw parsed).
Qed.

(** The accumulator is only ever extended at its end. *)
Lemma loop_acc candidates : forall acc w,
  loop candidates acc w =
    let '(r, w') := loop candidates [] w in (rs <- r ;; ret (acc ++ rs), w').
Proof.
  induction candidates as [|cand rest IH]; intros acc w.
  - cbn. now rewrite app_nil_r.
  - rewrite !loop_cons. destruct (body cand w) as [[e|rec] w']; [reflexivity|].
    rewrite (IH (acc ++ [rec])), (IH ([] ++ [rec])).
    destruct (loop rest [] w') as [[e|rs] w'']; cbn; [reflexivity|].
    now rewrite <- app_assoc.
Qed.

Lemma loop_step cand rest w :
  loop (cand :: rest) [] w =
    match body cand w with
    | (inl e, w') => (inl e, w')
    | (inr rec, w') =>
        let '(r, w'') := loop rest [] w' in (rs <- r ;; ret (rec :: rs), w'')
    end.
Proof.
  rewrite loop_cons. destruct (body cand w) as [[e|rec] w']; [reflexivity|].
  now rewrite loop_acc.
Qed.

(** A run over [pre ++ post] is the run over [pre] followed by the run over
    [post] from the world [pre] left behind. *)
Lemma loop_app pre : forall post w,
  loop (pre ++ post) [] w =
    match loop pre [] w with
    | (inl e, w1) => (inl e, w1)
    | (inr rs1, w1) =>
        let '(r, w2) := loop post [] w1 in (rs2 <- r ;; ret (rs1 ++ rs2), w2)
    end.
Proof.
  induction pre as [|cand pre IH]; intros post w.
  - cbn. now destruct (loop post [] w) as [[e|rs] w'].
  - rewrite <- app_comm_cons, !loop_step.
    destruct (body cand w) as [[e|rec] w']; [reflexivity|].
    rewrite IH. destruct (loop pre [] w') as [[e|rs1] w1]; cbn; [reflexivity|].
    now destruct (loop post [] w1) as [[e|rs2] w2].
Qed.

(** Every turn of the body that returns yields a record of its candidate. *)
Lemma body_carries cand w rec w' :
  body cand w = (inr rec, w') -> carries cand rec.
Proof.
  unfold loop_body. destruct (attempt' (prompt_for cand) w) as [[e|[raw parsed]] w1].
  - intros [= <- _]. now split.
  - intros [= H _]. unfold success_record in H.
    repeat match type of H with
           | bind ?m _ = _ => destruct m; [discriminate|]; cbn [bind] in H
           end.
    injection H as <-. now split.
Qed.

(** When the loop returns, it returns one record per candidate, in the order
    of the candidates, each with the identity of its candidate. *)
Lemma loop_records candidates : forall w rs w',
  loop candidates [] w = (inr rs, w') -> Forall2 carries candidates rs.
Proof.
  induction candidates as [|cand rest IH]; intros w rs w'.
  - intros [= <- _]. constructor.
  - rewrite loop_step. destruct (body cand w) as [[e|rec] w1] eqn:Hb; [discriminate|].
    destruct (loop rest [] w1) as [[e|rs'] w2] eqn:Hl; [discriminate|].
    intros [= <- _]. constructor; [eapply body_carries; eassumption | eapply IH; eassumption].
Qed.

(** Sorting permutes. *)
Lemma insert_by_perm {A K} (ltb : K -> K -> bool) (key : A -> K) x l :
  Permutation (insert_by ltb key x l) (x :: l).
Proof.
  induction l as [|y l IH]; cbn; [reflexivity|].
  destruct (ltb (key y) (key x)); [|reflexivity].
  rewrite IH. apply perm_swap.
Qed.

Lemma sorted_perm {A K} (ltb : K -> K -> bool) (key : A -> K) l :
  Permutation (sorted ltb key l) l.
Proof.
  induction l as [|x l IH]; cbn; [reflexivity|].
  rewrite insert_by_perm. now constructor.
Qed.

Lemma evaluate_unfold candidates w :
  evaluate candidates w =
    let '(r, w') := loop candidates [] w in
    (results <- r ;; ret (sorted key_ltb sort_key results), w').
Proof. reflexivity. Qed.

(** The call returns exactly when the loop does, with the sorted records. *)
Lemma evaluate_returns candidates w rs w' :
  evaluate candidates w = (inr rs, w') ->
  exists results, loop candidates [] w = (inr results, w')
                  /\ rs = sorted key_ltb sort_key results.
Proof.
  rewrite evaluate_unfold. destruct (loop candidates [] w) as [[e|results] w1]; [discriminate|].
  intros [= <- <-]. now exists results.
Qed.

(** Whenever the call returns, it returns as many records as there were
    candidates. *)
Lemma evaluate_length candidates w rs w' :
  evaluate candidates w = (inr rs, w') -> List.length rs = List.length candidates.
Proof.
  intros H. apply evaluate_returns in H as (results & Hl & ->).
  rewrite (Permutation_length (sorted_perm _ _ results)).
  symmetry. eapply Forall2_length, loop_records, Hl.
Qed.

Lemma carries_identity candidates results :
  Forall2 carries candidates results ->
  map identity_of_record results = map identity_of_candidate candidates.
Proof.
  induction 1 as [|c r cs rs [Hi Hn] _ IH]; [reflexivity|].
  cbn. unfold identity_of_record at 1, identity_of_candidate at 1. now rewrite Hi, Hn, IH.
Qed.

(** C10. Whenever the call returns, its records are a rearrangement of the
    records the loop built, one per candidate and in candidate order, each
    with the [id] and [name] its candidate has ([None] when the key is
    missing), failed or not; hence the (id, name) pairs of the output are the
    pairs of the input, counted with multiplicity. *)
Theorem identities_preserved candidates w rs w' :
  evaluate candidates w = (inr rs, w') ->
  (exists results, Forall2 carries candidates results /\ Permutation results rs)
  /\ Permutation (map identity_of_record rs) (map identity_of_candidate candidates).
Proof.
  intros H. apply evaluate_returns in H as (results & Hl & ->).
  pose proof (loop_records _ _ _ _ Hl) as Hc. split.
  - exists results. split; [exact Hc|]. symmetry. apply sorted_perm.
  - rewrite <- (carries_identity _ _ Hc). apply Permutation_map, sorted_perm.
Qed.

(** C3. Let the loop have returned [rs_pre] for the candidates before
    [cand], and let the scorer call for [cand] raise [e], or return a reply on
    which the parser raises [e].  Then the record of [cand] has both scores
    absent, [passed_required] false and the single reason "LLM error: " followed
    by the text of [e]; the loop does not stop there but goes on with the
    candidates after [cand], from the world the failed call left, and puts
    their records after [rs_pre] and the failure record.  The records of the
    other candidates are those of their own runs: the failure leaves no trace
    in them.  The call then returns a rearrangement of all these records, and,
    when none of them holds a NaN score, these records sorted. *)
Theorem failure_is_isolated pre cand post w w1 w2 e rs_pre :
  loop pre [] w = (inr rs_pre, w1) ->
  (let prompt := build_prompt_for_candidate json_dumps cand config in
   call_llm World llm_backend prompt llm_client w1 = (inl e, w2)
   \/ exists raw, call_llm World llm_backend prompt llm_client w1 = (inr raw, w2)
                  /\ parse_llm_json_response json_loads raw = inl e) ->
  let failed := failure_record cand e in
  (llm_score failed = None /\ score_10 failed = None /\ passed_required failed = false
   /\ reasons failed = [PStr ("LLM error: " ++ exc_str e)%string])
  /\ loop (pre ++ cand :: post) [] w
     = (let '(r, w3) := loop post [] w2 in
        (rs_post <- r ;; ret (rs_pre ++ failed :: rs_post), w3))
  /\ (forall rs_post w3,
        loop post [] w2 = (inr rs_post, w3) ->
        exists rs,
          evaluate (pre ++ cand :: post) w = (inr rs, w3)
          /\ Permutation (rs_pre ++ failed :: rs_post) rs
          /\ (Forall no_nan (rs_pre ++ failed :: rs_post) ->
              rs = sorted key_ltb sort_key (rs_pre ++ failed :: rs_post))).
Proof.
  intros Hpre Hfail failed.
  assert (Hbody : body cand w1 = (inr failed, w2)).
  { unfold loop_body, attempt. cbv zeta in Hfail.
    destruct Hfail as [H | (raw & H & Hp)]; rewrite H; cbn [bind]; [reflexivity|].
    now rewrite Hp. }
  assert (Hloop : loop (pre ++ cand :: post) [] w
                  = (let '(r, w3) := loop post [] w2 in
                     (rs_post <- r ;; ret (rs_pre ++ failed :: rs_post), w3))).
  { rewrite loop_app, Hpre, loop_step, Hbody.
    now destruct (loop post [] w2) as [[e'|rs] w3]. }
  split; [now repeat split|]. split; [exact Hloop|].
  intros rs_post w3 Hpost.
  exists (sorted key_ltb sort_key (rs_pre ++ failed :: rs_post)).
  split; [|split].
  - rewrite evaluate_unfold, Hloop, Hpost. reflexivity.
  - symmetry. apply sorted_perm.
  - reflexivity.
Qed.

(** Had the turn for [cand] returned a record [r] instead, the loop would
    return the same records around [r]. *)
Lemma success_in_context pre cand post w w1 w2 w3 r rs_pre rs_post :
  loop pre [] w = (inr rs_pre, w1) ->
  body cand w1 = (inr r, w2) ->
  loop post [] w2 = (inr rs_post, w3) ->
  loop (pre ++ cand :: post) [] w = (inr (rs_pre ++ r :: rs_post), w3).
Proof.
  intros Hpre Hbody Hpost. rewrite loop_app, Hpre, loop_step, Hbody, Hpost. reflexivity.
Qed.

End Loop.

Lemma identities_preserved_witness :
  Permutation
    (map identity_of_record Stub.scenario_ranking)
    (map identity_of_candidate [Stub.cand_a; Stub.cand_b; Stub.cand_c]).
Proof.
  refine (proj2 (identities_preserved Stub.script RefJson.loads (fun _ => "") (fun _ => "")
                   None [] (Some Stub.scripted_client)
                   [Stub.cand_a; Stub.cand_b; Stub.cand_c] Stub.scenario
                   Stub.scenario_ranking [] _)).
  vm_compute. reflexivity.
Defined.

Lemma failure_is_isolated_witness :
  Stub.run [Stub.cand_a; Stub.cand_b; Stub.cand_c] Stub.scenario
  = (inr Stub.scenario_ranking, []).
Proof.
  pose proof (failure_is_isolated Stub.script RefJson.loads (fun _ => "") (fun _ => "")
                None [] (Some Stub.scripted_client) [Stub.cand_a] Stub.cand_b [Stub.cand_c]
                Stub.scenario
                [inl Stub.outage; Stub.reply (Stub.score_reply "1")]
                [Stub.reply (Stub.score_reply "1")] Stub.outage
                [Stub.scored_record Stub.cand_a half (Stub.score_reply "0.5")]) as H.
  destruct H as (_ & _ & H).
  - vm_compute. reflexivity.
  - left. vm_compute. reflexivity.
  - unfold Stub.run. cbn [List.app] in H.
    destruct (H [Stub.scored_record Stub.cand_c one (Stub.score_reply "1")] [])
      as (rs & He & _ & Hs).
    + vm_compute. reflexivity.
    + rewrite He, Hs.
      * vm_compute. reflexivity.
      * repeat constructor; discriminate.
Defined.

(** C1, at the failing input.  The second of two candidates is answered with
    [{"score": 1000...0}], an integer of 310 digits.  The reply parses, and
    [float(score)] raises [OverflowError] outside the [try] block: the call
    returns no list, and the record of the first candidate is lost with it. *)
Theorem huge_integer_score_aborts :
  Stub.run [Stub.candidate "a" "A"; Stub.candidate "b" "B"]
           [Stub.reply (Stub.score_reply "0.5");
            Stub.reply (Stub.score_reply ("1" ++ zeros 309))]
  = (raise OverflowError "int too large to convert to float", []).
Proof. vm_compute. reflexivity. Qed.

(** ** When the call returns *)

Section Totality.

Variable World : Type.
Variable json_loads : string -> loads_result.
Variable json_dumps : pyval -> string.
Variable repr : pyval -> string.
Variable llm_backend : option (option (scorer World)).
Variable config : dict.
Variable llm_client : option (scorer World).

Local Notation attempt' := (attempt World json_loads llm_backend llm_client).
Local Notation body := (loop_body json_loads json_dumps repr llm_backend config llm_client).
Local Notation loop :=
  (evaluate_loop World json_loads json_dumps repr llm_backend config llm_client).
Local Notation evaluate :=
  (evaluate_candidates_with_llm World json_loads json_dumps repr llm_backend config llm_client).

(** The decoder gives a mapping for a text that opens with a brace. *)
Hypothesis loads_object :
  forall rest v, json_loads (String "{" rest) = Loaded v -> exists d, v = PDict d.

(** No parsed reply holds an integer score that is out of the [float] range
    itself or once multiplied by ten. *)
Hypothesis scores_in_range :
  forall prompt w raw d w',
    attempt' prompt w = (inr (raw, PDict d), w') ->
    score_in_range (dict_get d "score" PNone).

Lemma parse_gives_dict raw v :
  parse_llm_json_response json_loads raw = inr v -> exists d, v = PDict d.
Proof.
  unfold parse_llm_json_response. destruct (py_strip raw) as [e|text]; [discriminate|].
  cbn [bind]. unfold parse_text.
  set (t := strip_fences text).
  destruct ((Str.find t "{" =? -1) || (Str.rfind t "}" =? -1)
            || (Str.rfind t "}" <? Str.find t "{")) eqn:G; [discriminate|].
  destruct (snippet_opens t G) as [rest ->].
  destruct (json_loads (String "{" rest)) as [v'|msg pos|e] eqn:L1.
  - intros [= <-]. eauto.
  - change (String "{" rest ++ "}")%string with (String "{" (rest ++ "}")%string).
    destruct (json_loads (String "{" (rest ++ "}"))) as [v'|msg' pos'|e] eqn:L2;
      [|discriminate..].
    intros [= <-]. eauto.
  - discriminate.
Qed.

Lemma success_record_returns cand raw d :
  score_in_range (dict_get d "score" PNone) ->
  exists r, success_record repr cand raw (PDict d) = inr r.
Proof.
  intros H. rewrite success_record_dict.
  destruct (dict_get d "score" PNone) as [|b|z|f|s|l|m];
    try (cbn; eexists; reflexivity).
  - destruct b; cbn; eexists; reflexivity.
  - destruct (H z eq_refl) as [H1 H2].
    unfold float_or_none, py_float, float_of_int. cbn [is_int_or_float times_ten].
    rewrite H1, H2. cbn. eexists; reflexivity.
Qed.

Lemma body_returns cand w : exists r w', body cand w = (inr r, w').
Proof.
  unfold loop_body.
  destruct (attempt' (build_prompt_for_candidate json_dumps cand config) w)
    as [[e|[raw parsed]] w'] eqn:Ha; [eauto|].
  assert (exists d, parsed = PDict d) as [d ->].
  { unfold attempt in Ha.
    destruct (call_llm World llm_backend _ llm_client w) as [[e|raw'] w1]; [discriminate|].
    cbn [bind] in Ha.
    destruct (parse_llm_json_response json_loads raw') as [e|v] eqn:Hp; [discriminate|].
    injection Ha as <- <- <-. eapply parse_gives_dict, Hp. }
  destruct (success_record_returns cand raw d) as [r Hr]; [eapply scores_in_range, Ha|].
  rewrite Hr. eauto.
Qed.

Lemma loop_returns candidates : forall w, exists rs w', loop candidates [] w = (inr rs, w').
Proof.
  induction candidates as [|cand rest IH]; intros w; [cbn; eauto|].
  rewrite loop_step. destruct (body_returns cand w) as (r & w1 & ->).
  destruct (IH w1) as (rs & w2 & ->). cbn. eauto.
Qed.


End Totality.

(** The reference decoder gives a mapping for a text that opens with a
    brace. *)
Lemma scan_pairs_dict fuel : forall acc s pos v rest p,
  RefJson.scan_pairs fuel acc s pos = RefJson.Ok v rest p -> exists d, v = PDict d.
Proof.
  induction fuel as [|fuel IH]; intros acc s pos v rest p H; [discriminate|].
  cbn [RefJson.scan_pairs] in H.
  repeat match type of H with
         | match ?x with _ => _ end = _ => destruct x eqn:?; try discriminate
         | (let '(_, _) := ?x in _) = _ => destruct x eqn:?
         | (if ?x then _ else _) = _ => destruct x eqn:?; try discriminate
         end.
  - injection H as <- _ _. eauto.
  - eapply IH, H.
Qed.

Lemma RefJson_loads_object rest v :
  RefJson.loads (String "{" rest) = Loaded v -> exists d, v = PDict d.
Proof.
  unfold RefJson.loads. cbn [RefJson.skip_ws]. change (RefJson.is_ws "{") with false.
  cbv iota. set (fuel := (2 * String.length (String "{" rest) + 2)%nat).
  destruct fuel as [|fuel]; [discriminate|].
  cbn [RefJson.scan_once]. change (Ascii.eqb "{" RefJson.dquote) with false.
  change (Ascii.eqb "{" "{") with true. cbv iota.
  destruct (RefJson.skip_ws rest (0 + 1)) as [s1 p1].
  destruct (RefJson.starts "}" s1) as [s2|].
  - destruct (RefJson.skip_ws s2 (p1 + 1)) as [[|] ?]; [|discriminate].
    intros [= <-]. eauto.
  - destruct (RefJson.opens_key s1); [|discriminate].
    destruct (RefJson.scan_pairs fuel [] s1 p1) as [v' r p| | |] eqn:Hs; try discriminate.
    destruct (RefJson.skip_ws r p) as [[|] ?]; [|discriminate].
    intros [= <-]. eapply scan_pairs_dict, Hs.
Qed.


(** ** Order of binary64 values *)

Lemma SFcompare_antisym a b :
  SFcompare b a = option_map CompOpp (SFcompare a b).
Proof.
  destruct a as [sa|sa| |sa ma ea], b as [sb|sb| |sb mb eb];
    try destruct sa; try destruct sb; try reflexivity;
    cbn [SFcompare option_map]; rewrite (Z.compare_antisym ea eb);
    destruct (ea ?= eb); cbn [CompOpp]; try reflexivity;
    change (Pos.compare_cont Eq) with Pos.compare;
    rewrite (Pos.compare_antisym ma mb); now destruct (ma ?= mb)%positive.
Qed.

Lemma SFcompare_opp a b : SFcompare (SFopp a) (SFopp b) = SFcompare b a.
Proof.
  destruct a as [sa|sa| |sa ma ea], b as [sb|sb| |sb mb eb];
    try destruct sa; try destruct sb; try reflexivity;
    cbn [SFcompare SFopp negb]; rewrite (Z.compare_antisym ea eb);
    destruct (ea ?= eb); cbn [CompOpp]; try reflexivity;
    change (Pos.compare_cont Eq) with Pos.compare;
    rewrite (Pos.compare_antisym ma mb); now destruct (ma ?= mb)%positive.
Qed.

Lemma SFleb_trans a b c :
  SFleb a b = true -> SFleb b c = true -> SFleb a c = true.
Proof.
  unfold SFleb.
  destruct a as [sa|sa| |sa ma ea], b as [sb|sb| |sb mb eb], c as [sc|sc| |sc mc ec];
    try destruct sa; try destruct sb; try destruct sc;
    cbn [SFcompare]; try (intros; reflexivity || discriminate);
    change (Pos.compare_cont Eq) with Pos.compare;
    destruct (Z.compare_spec ea eb), (Z.compare_spec eb ec), (Z.compare_spec ea ec);
    try lia; try (intros; reflexivity || discriminate); subst;
    destruct (Pos.compare_spec ma mb), (Pos.compare_spec mb mc), (Pos.compare_spec ma mc);
    try lia; cbn [CompOpp]; intros; reflexivity || discriminate.
Qed.

(** Without NaN any two values compare. *)
Lemma SFcompare_defined a b :
  is_nan a = false -> is_nan b = false -> exists c, SFcompare a b = Some c.
Proof.
  intros Ha Hb. destruct a, b; try discriminate; cbn [SFcompare]; eexists; reflexivity.
Qed.

Lemma SFltb_false_iff a b :
  is_nan a = false -> is_nan b = false ->
  SFltb a b = false <-> SFleb b a = true.
Proof.
  intros Ha Hb. unfold SFltb, SFleb. rewrite (SFcompare_antisym a b).
  destruct (SFcompare_defined a b Ha Hb) as [c ->].
  destruct c; cbn; split; congruence.
Qed.

Lemma SFleb_total a b :
  is_nan a = false -> is_nan b = false -> SFleb a b = true \/ SFleb b a = true.
Proof.
  intros Ha Hb. unfold SFleb. rewrite (SFcompare_antisym a b).
  destruct (SFcompare_defined a b Ha Hb) as [c ->].
  destruct c; cbn; auto.
Qed.

Lemma SFeqb_leb a b : SFeqb a b = true -> SFleb a b = true /\ SFleb b a = true.
Proof.
  unfold SFeqb, SFleb. rewrite (SFcompare_antisym a b).
  destruct (SFcompare a b) as [[]|]; cbn; intuition congruence.
Qed.

(** ** The sort key *)

Lemma compare_zero_finite s m e :
  compare_int_float 0 (S754_finite s m e) = Some (if s then Gt else Lt).
Proof.
  unfold compare_int_float. f_equal.
  assert (0 <= e -> 0 < 2 ^ e) by (intros; apply Z.pow_pos_nonneg; lia).
  destruct (Z.leb_spec 0 e) as [He|He]; destruct s; try reflexivity.
  - apply Z.compare_gt_iff. apply Z.mul_neg_pos; [lia|auto].
  - apply Z.compare_lt_iff. apply Z.mul_pos_pos; [lia|auto].
Qed.

(** The second component of the key of a score: [-(score or 0)]. *)
Lemma num_compare_score x y :
  is_nan x = false -> is_nan y = false ->
  num_compare (num_neg (score_or_zero (Some y))) (num_neg (score_or_zero (Some x)))
  = SFcompare x y.
Proof.
  intros Hx Hy.
  destruct x as [sx|sx| |sx mx ex], y as [sy|sy| |sy my ey]; try discriminate;
    cbn [score_or_zero is_fzero num_neg num_compare Z.opp];
    try exact (SFcompare_opp _ _);
    cbn [SFopp]; try rewrite compare_zero_finite;
    try destruct sx; try destruct sy; reflexivity.
Qed.

(** On two scored records the keys compare as the scores do, reversed. *)
Lemma key_ltb_scored a b x y :
  llm_score a = Some x -> llm_score b = Some y ->
  is_nan x = false -> is_nan y = false ->
  key_ltb (sort_key b) (sort_key a) = SFltb x y.
Proof.
  intros Ha Hb Hx Hy. unfold key_ltb, sort_key, num_eqb, num_ltb, SFltb.
  rewrite Ha, Hb. cbn [fst snd is_none Bool.eqb negb].
  rewrite (num_compare_score x y Hx Hy).
  now destruct (SFcompare x y) as [[]|].
Qed.

Lemma no_nan_score r x : no_nan r -> llm_score r = Some x -> is_nan x = false.
Proof. intros H E. destruct x; try reflexivity. now elim H. Qed.

(** [b] does not sort strictly before [a] exactly when [a] may stand before
    [b]. *)
Lemma key_ltb_false_iff a b :
  no_nan a -> no_nan b ->
  key_ltb (sort_key b) (sort_key a) = false <-> ranked_before a b.
Proof.
  intros Ha Hb. unfold ranked_before.
  destruct (llm_score a) as [x|] eqn:Ea, (llm_score b) as [y|] eqn:Eb.
  - rewrite (key_ltb_scored a b x y Ea Eb) by eauto using no_nan_score.
    apply SFltb_false_iff; eauto using no_nan_score.
  - unfold key_ltb, sort_key. rewrite Ea, Eb. cbn. tauto.
  - unfold key_ltb, sort_key. rewrite Ea, Eb. cbn. intuition discriminate.
  - unfold key_ltb, sort_key. rewrite Ea, Eb. cbn. tauto.
Qed.

Lemma ranked_before_total a b :
  no_nan a -> no_nan b -> ranked_before a b \/ ranked_before b a.
Proof.
  intros Ha Hb. unfold ranked_before.
  destruct (llm_score a) as [x|] eqn:Ea, (llm_score b) as [y|] eqn:Eb; auto.
  destruct (SFleb_total x y); eauto using no_nan_score.
Qed.

Lemma ranked_before_trans a b c :
  ranked_before a b -> ranked_before b c -> ranked_before a c.
Proof.
  unfold ranked_before.
  destruct (llm_score a), (llm_score b), (llm_score c); try tauto.
  intros H1 H2. eapply SFleb_trans; eassumption.
Qed.

(** ** Stable insertion *)

Section SortedFacts.

Context {A K : Type}.
Variable ltb : K -> K -> bool.
Variable key : A -> K.

(** [may_precede a b]: [b] does not sort strictly before [a]. *)
Let may_precede (a b : A) : Prop := ltb (key b) (key a) = false.

Variable Good : A -> Prop.
Hypothesis total : forall a b, Good a -> Good b -> may_precede a b \/ may_precede b a.
Hypothesis trans : forall a b c, Good a -> Good b -> Good c ->
  may_precede a b -> may_precede b c -> may_precede a c.

Lemma insert_by_sorted x l :
  Good x -> Forall Good l ->
  StronglySorted may_precede l -> StronglySorted may_precede (insert_by ltb key x l).
Proof.
  intros Hx Hl Hs. induction Hs as [|y l Hs IH Hy]; cbn.
  - repeat constructor.
  - inversion Hl as [|? ? Gy Gl]; subst.
    destruct (ltb (key y) (key x)) eqn:E.
    + constructor; [now apply IH|].
      eapply Permutation_Forall; [symmetry; apply insert_by_perm|].
      constructor; [|exact Hy].
      destruct (total x y Hx Gy) as [H|H]; [|exact H].
      unfold may_precede in H. congruence.
    + constructor; [now constructor|].
      constructor; [exact E|].
      rewrite Forall_forall in *. intros z Hz.
      apply (trans x y z); auto.
Qed.

Lemma sorted_sorted l :
  Forall Good l -> StronglySorted may_precede (sorted ltb key l).
Proof.
  induction 1 as [|x l Hx Hl IH]; cbn; [constructor|].
  apply insert_by_sorted; [exact Hx | | exact IH].
  eapply Permutation_Forall; [symmetry; apply sorted_perm | exact Hl].
Qed.

(** A class [p] of records none of which sorts strictly before another keeps
    its order: this is stability. *)
Variable p : A -> bool.
Hypothesis class : forall a b, p a = true -> p b = true -> ltb (key b) (key a) = false.

Lemma insert_by_filter x l :
  filter p (insert_by ltb key x l) = filter p (x :: l).
Proof.
  induction l as [|y l IH]; [reflexivity|].
  cbn [insert_by]. destruct (ltb (key y) (key x)) eqn:E; [|reflexivity].
  cbn [filter] in *. rewrite IH.
  destruct (p x) eqn:Px, (p y) eqn:Py; try reflexivity.
  rewrite (class x y Px Py) in E. discriminate.
Qed.

Lemma sorted_filter l : filter p (sorted ltb key l) = filter p l.
Proof.
  induction l as [|x l IH]; [reflexivity|].
  cbn [sorted fold_right]. fold (sorted ltb key l).
  rewrite insert_by_filter. cbn [filter]. now rewrite IH.
Qed.

End SortedFacts.

(** ** Order of the ranking *)

Lemma StronglySorted_weaken {A} (R R' : A -> A -> Prop) (P : A -> Prop) l :
  (forall a b, P a -> P b -> R a b -> R' a b) ->
  Forall P l -> StronglySorted R l -> StronglySorted R' l.
Proof.
  intros HR Hl Hs. induction Hs as [|a l Hs IH Ha]; [constructor|].
  inversion Hl as [|? ? Pa Pl]; subst. constructor; [now apply IH|].
  rewrite Forall_forall in *. intros b Hb. apply HR; auto.
Qed.

(** Records with the same score, and records without a score, never sort
    strictly before one another. *)
Lemma same_score_class f a b :
  same_score f a = true -> same_score f b = true ->
  key_ltb (sort_key b) (sort_key a) = false.
Proof.
  unfold same_score.
  destruct (llm_score a) as [x|] eqn:Ea; [|discriminate].
  destruct (llm_score b) as [y|] eqn:Eb; [|discriminate].
  intros Hx Hy.
  assert (Nx : is_nan x = false) by (destruct x; try reflexivity; discriminate).
  assert (Ny : is_nan y = false) by (destruct y; try reflexivity; discriminate).
  rewrite (key_ltb_scored a b x y Ea Eb Nx Ny).
  apply SFltb_false_iff; [assumption..|].
  apply SFeqb_leb in Hx as [_ Hx]. apply SFeqb_leb in Hy as [Hy _].
  eapply SFleb_trans; eassumption.
Qed.

Lemma unscored_class a b :
  unscored a = true -> unscored b = true ->
  key_ltb (sort_key b) (sort_key a) = false.
Proof.
  unfold unscored, key_ltb, sort_key.
  destruct (llm_score a); [discriminate|]. destruct (llm_score b); [discriminate|].
  reflexivity.
Qed.

(** What sorting by [sort_key] achieves on records free of NaN. *)
Lemma sorted_by_sort_key results :
  Forall no_nan results ->
  StronglySorted ranked_before (sorted key_ltb sort_key results).
Proof.
  intros Hn.
  apply (StronglySorted_weaken
           (fun a b => key_ltb (sort_key b) (sort_key a) = false) ranked_before no_nan).
  - intros a b Ha Hb. now apply key_ltb_false_iff.
  - eapply Permutation_Forall; [symmetry; apply sorted_perm | exact Hn].
  - apply (sorted_sorted key_ltb sort_key no_nan); [| |exact Hn].
    + intros a b Ha Hb. rewrite !key_ltb_false_iff by assumption.
      now apply ranked_before_total.
    + intros a b c Ha Hb Hc. rewrite !key_ltb_false_iff by assumption.
      apply ranked_before_trans.
Qed.

Section Order.

Variable World : Type.
Variable json_loads : string -> loads_result.
Variable json_dumps : pyval -> string.
Variable repr : pyval -> string.
Variable llm_backend : option (option (scorer World)).
Variable config : dict.
Variable llm_client : option (scorer World).

Local Notation loop :=
  (evaluate_loop World json_loads json_dumps repr llm_backend config llm_client).
Local Notation evaluate :=
  (evaluate_candidates_with_llm World json_loads json_dumps repr llm_backend config llm_client).

(** X11. The ranking of a call that returns records free of NaN.  [results] are
    the records in candidate order.  In the output every record may stand
    before every later one: scores descend and the records without a score
    come after all the others.  Records of equal score keep their candidate
    order, and so do the records without a score. *)
Theorem ranking_order candidates w rs w' :
  evaluate candidates w = (inr rs, w') ->
  Forall no_nan rs ->
  exists results,
    loop candidates [] w = (inr results, w')
    /\ Forall2 carries candidates results
    /\ Permutation results rs
    /\ StronglySorted ranked_before rs
    /\ (forall f, filter (same_score f) rs = filter (same_score f) results)
    /\ filter unscored rs = filter unscored results.
Proof.
  intros H Hn. apply evaluate_returns in H as (results & Hl & ->).
  exists results. split; [exact Hl|]. split; [eapply loop_records; exact Hl|].
  split; [symmetry; apply sorted_perm|]. split; [|split].
  - apply sorted_by_sort_key.
    eapply Permutation_Forall; [apply (sorted_perm key_ltb sort_key) | exact Hn].
  - intros f. apply sorted_filter, same_score_class.
  - apply sorted_filter, unscored_class.
Qed.

End Order.

Lemma ranking_order_witness :
  StronglySorted ranked_before Stub.scenario_ranking.
Proof.
  destruct (ranking_order Stub.script RefJson.loads (fun _ => "") (fun _ => "")
              None [] (Some Stub.scripted_client)
              [Stub.cand_a; Stub.cand_b; Stub.cand_c] Stub.scenario
              Stub.scenario_ranking [])
    as (results & _ & _ & _ & Hs & _).
  - vm_compute. reflexivity.
  - repeat constructor; discriminate.
  - exact Hs.
Defined.

(** C2, at the failing input.  Three candidates are answered with the scores
    [1], [NaN] and [2]; [json.loads] accepts the literal [NaN].  No key
    compares less than the key of the NaN record or greater, so the sort
    leaves the three records as they were: the record of score 1.0 comes
    before the record of score 2.0. *)
Theorem nan_score_breaks_order :
  Stub.run [Stub.cand_a; Stub.cand_b; Stub.cand_c]
           [Stub.reply (Stub.score_reply "1"); Stub.reply (Stub.score_reply "NaN");
            Stub.reply (Stub.score_reply "2")]
  = (inr [Stub.scored_record Stub.cand_a one (Stub.score_reply "1");
          Stub.scored_record Stub.cand_b S754_nan (Stub.score_reply "NaN");
          Stub.scored_record Stub.cand_c two (Stub.score_reply "2")], [])
  /\ SFltb one two = true.
Proof. split; vm_compute; reflexivity. Qed.

(** ** The backend configuration *)

Import LlmBackend.

(** C8, as the code has it.  The startup check looks at the token and the
    account identifier only: if either is missing the check fails, and once
    the check has passed, resolving the configuration for a scorer call can
    only fail on an empty model name, and succeeds when a model name is
    there. *)
Theorem startup_check_covers_token_and_account (c : constants) (model : option string) :
  (is_set (CLOUDFLARE_API_TOKEN c) = false \/ is_set (CLOUDFLARE_ACCOUNT_ID c) = false ->
   is_ollama_installed c = false)
  /\ (is_ollama_installed c = true ->
      _get_cloudflare_config c model =
        if is_set (or_else model (CLOUDFLARE_MODEL c))
        then ret (text_of (CLOUDFLARE_ACCOUNT_ID c), text_of (CLOUDFLARE_API_TOKEN c),
                  text_of (or_else model (CLOUDFLARE_MODEL c)))
        else raise RuntimeError missing_model).
Proof.
  unfold is_ollama_installed, _get_cloudflare_config. split.
  - intros [H|H]; rewrite H; [reflexivity|apply andb_false_r].
  - intros H. apply andb_true_iff in H as [Ht Ha]. rewrite Ht, Ha. simpl.
    now destruct (is_set (or_else model (CLOUDFLARE_MODEL c))).
Qed.

Lemma startup_check_covers_token_and_account_witness :
  is_ollama_installed (Constants None (Some "acct") (Some "@cf/meta/llama-3-8b-instruct")) = false
  /\ _get_cloudflare_config (Constants (Some "tok") (Some "acct") None) (Some "m")
     = ret ("acct", "tok", "m").
Proof.
  split.
  - apply (proj1 (startup_check_covers_token_and_account
                    (Constants None (Some "acct") (Some "@cf/meta/llama-3-8b-instruct")) None)).
    left; reflexivity.
  - apply (proj2 (startup_check_covers_token_and_account
                    (Constants (Some "tok") (Some "acct") None) (Some "m"))).
    reflexivity.
Defined.

(** C8 fails as stated: with token and account set and the model name empty
    the startup check passes, and each scorer call raises the missing-model
    [RuntimeError] before anything is sent; the ranking loop records it as the
    failure of that candidate. *)
Lemma startup_check_misses_model :
  let c := Constants (Some "tok") (Some "acct") (Some "") in
  let post := fun (_ _ _ : string) (_ : Z) (w : unit) => (RequestException "unreachable", w) in
  let backend : scorer unit :=
    fun prompt w => score_candidate unit c post (fun _ => "") prompt None 600 w in
  is_ollama_installed c = true
  /\ backend "prompt" tt = (raise RuntimeError missing_model, tt)
  /\ evaluate_candidates_with_llm unit RefJson.loads (fun _ => "") (fun _ => "")
       (Some (Some backend)) [] None [Stub.cand_a] tt
     = (inr [failure_record Stub.cand_a (Exn RuntimeError missing_model)], tt).
Proof. repeat split. Qed.

(** ** The PDF loader *)

Import PdfParser.

Lemma bytes_eqb_spec (a b : bytes) : reflect (a = b) (bytes_eqb a b).
Proof. unfold bytes_eqb. destruct (list_eq_dec byte_eq_dec a b); now constructor. Qed.

(** C9. On [bytes] that begin with the five-byte header the loader returns
    the very same bytes; on [bytes] that do not, it raises the [ValueError]
    of the header check and returns nothing. *)
Theorem load_pdf_binary_on_bytes (b : bytes) :
  (firstn 5 b = pdf_magic -> load_pdf_binary (Bytes b) = ret b)
  /\ (firstn 5 b <> pdf_magic -> load_pdf_binary (Bytes b) = raise ValueError not_a_pdf).
Proof.
  assert (E : load_pdf_binary (Bytes b)
              = if _is_pdf_bytes b then ret b else raise ValueError not_a_pdf).
  { unfold load_pdf_binary. cbn [bind ret]. now destruct (_is_pdf_bytes b). }
  rewrite E. unfold _is_pdf_bytes.
  destruct (bytes_eqb_spec (firstn 5 b) pdf_magic); split; intros H;
    [reflexivity | contradiction | contradiction | reflexivity].
Qed.

Lemma load_pdf_binary_on_bytes_witness :
  load_pdf_binary (Bytes (pdf_magic ++ [x31; x2e; x34])) = ret (pdf_magic ++ [x31; x2e; x34])
  /\ load_pdf_binary (Bytes [x50; x4b; x03; x04]) = raise ValueError not_a_pdf.
Proof.
  split.
  - apply (proj1 (load_pdf_binary_on_bytes (pdf_magic ++ [x31; x2e; x34]))). reflexivity.
  - apply (proj2 (load_pdf_binary_on_bytes [x50; x4b; x03; x04])). discriminate.
Defined.

(** ** The PDF loader on every input shape *)

Lemma encode_latin1_decodes s : forall data,
  encode_latin1 s = inr data -> map Byte.to_N data = s.
Proof.
  induction s as [|c s IH]; intros data H.
  - injection H as <-. reflexivity.
  - cbn [encode_latin1] in H. destruct (Byte.of_N c) as [b|] eqn:Hb; [|discriminate].
    destruct (encode_latin1 s) as [e|r]; [discriminate|]. cbn [bind] in H.
    injection H as <-. cbn [map]. rewrite (IH r eq_refl).
    f_equal. now apply Byte.to_of_N.
Qed.

Lemma encode_latin1_rejects s :
  Exists (fun c => 256 <= c)%N s ->
  exists msg, encode_latin1 s = raise UnicodeEncodeError msg.
Proof.
  induction 1 as [c s Hc | c s Hs IH]; cbn [encode_latin1].
  - destruct (Byte.of_N c) as [b|] eqn:Hb; [|eexists; reflexivity].
    apply Byte.to_of_N in Hb. pose proof (Byte.to_N_bounded b). lia.
  - destruct (Byte.of_N c) as [b|]; [|eexists; reflexivity].
    destruct IH as [msg ->]. eexists; reflexivity.
Qed.

(** On [bytes] the loader only checks the header. *)
Lemma load_pdf_binary_bytes b :
  load_pdf_binary (Bytes b) = if _is_pdf_bytes b then ret b else raise ValueError not_a_pdf.
Proof. unfold load_pdf_binary. cbn [bind ret]. now destruct (_is_pdf_bytes b). Qed.

(** X1. Whatever the shape of the input, data the loader returns begins
    with the five bytes of the header. *)
Theorem load_pdf_binary_returns_pdf (contents : pdf_contents) (data : bytes) :
  load_pdf_binary contents = inr data -> firstn 5 data = pdf_magic.
Proof.
  unfold load_pdf_binary.
  match goal with |- bind ?m _ = _ -> _ => destruct m as [e|d]; [discriminate|] end.
  cbn [bind]. unfold _is_pdf_bytes.
  destruct (bytes_eqb_spec (firstn 5 d) pdf_magic) as [E|E]; [|discriminate].
  now intros [= <-].
Qed.

Lemma load_pdf_binary_returns_pdf_witness :
  firstn 5 (pdf_magic ++ [x31; x2e; x37]) = pdf_magic.
Proof.
  apply (load_pdf_binary_returns_pdf (FileLike (ReadByteArray (pdf_magic ++ [x31; x2e; x37])))).
  reflexivity.
Defined.

(** X2. Text is encoded one byte per code point: the bytes returned for a
    text, given as such or read from a file object, are its code points; a
    text with a code point of 256 or more raises [UnicodeEncodeError], before
    the header is looked at. *)
Theorem load_pdf_binary_on_text (s : list N) :
  (forall data, load_pdf_binary (Text s) = inr data -> map Byte.to_N data = s)
  /\ (forall data, load_pdf_binary (FileLike (ReadStr s)) = inr data -> map Byte.to_N data = s)
  /\ (Exists (fun c => 256 <= c)%N s ->
      exists msg, load_pdf_binary (Text s) = raise UnicodeEncodeError msg
                  /\ load_pdf_binary (FileLike (ReadStr s)) = raise UnicodeEncodeError msg).
Proof.
  assert (D : forall data,
             (data' <- encode_latin1 s ;;
              if negb (_is_pdf_bytes data') then raise ValueError not_a_pdf else ret data')
             = inr data -> map Byte.to_N data = s).
  { intros data H. destruct (encode_latin1 s) as [e|d] eqn:E; [discriminate|].
    cbn [bind] in H. destruct (_is_pdf_bytes d); [|discriminate].
    injection H as <-. now apply encode_latin1_decodes. }
  split; [exact D|]. split; [exact D|].
  intros H. destruct (encode_latin1_rejects s H) as [msg Hm].
  exists msg. unfold load_pdf_binary. now rewrite Hm.
Qed.

Lemma load_pdf_binary_on_text_witness :
  map Byte.to_N (pdf_magic ++ [x31]) = [37; 80; 68; 70; 45; 49]%N
  /\ exists msg, load_pdf_binary (Text [37; 80; 68; 70; 45; 8364]%N)
                 = raise UnicodeEncodeError msg.
Proof.
  split.
  - apply (proj1 (load_pdf_binary_on_text [37; 80; 68; 70; 45; 49]%N)). reflexivity.
  - destruct (proj2 (proj2 (load_pdf_binary_on_text [37; 80; 68; 70; 45; 8364]%N)))
      as (msg & H & _).
    + do 5 apply Exists_cons_tl. apply Exists_cons_hd. lia.
    + exists msg. exact H.
Defined.

(** X3. Bytes shorter than the header, the empty input included, are
    rejected with the [ValueError] of the header check. *)
Theorem load_pdf_binary_short (b : bytes) :
  (List.length b < 5)%nat ->
  load_pdf_binary (Bytes b) = raise ValueError not_a_pdf
  /\ load_pdf_binary (FileLike (ReadBytes b)) = raise ValueError not_a_pdf.
Proof.
  intros H.
  assert (E : _is_pdf_bytes b = false).
  { unfold _is_pdf_bytes. destruct (bytes_eqb_spec (firstn 5 b) pdf_magic) as [E|E]; [|reflexivity].
    apply (f_equal (@List.length byte)) in E. rewrite length_firstn in E.
    change (List.length pdf_magic) with 5%nat in E. lia. }
  unfold load_pdf_binary. cbn [bind ret]. rewrite E. now split.
Qed.

Lemma load_pdf_binary_short_witness :
  load_pdf_binary (Bytes []) = raise ValueError not_a_pdf.
Proof. apply (load_pdf_binary_short []). cbn. lia. Defined.

(** ** The sample generator *)

Import SampleResumes.

Lemma encode_utf8_replace_app a b :
  encode_utf8_replace (a ++ b) = encode_utf8_replace a ++ encode_utf8_replace b.
Proof. apply flat_map_app. Qed.

(** A character below 128 is encoded as the one byte of its code. *)
Lemma encode_utf8_ascii text :
  Forall (fun c => (c < 128)%N) text -> map Byte.to_N (encode_utf8_replace text) = text.
Proof.
  induction 1 as [|c text Hc _ IH]; [reflexivity|].
  unfold encode_utf8_replace in *. cbn [flat_map]. unfold utf8_char at 1.
  replace (c <? 128)%N with true by (symmetry; apply N.ltb_lt; exact Hc).
  cbn [List.app map]. rewrite IH. f_equal.
  unfold byte_of. rewrite N.mod_small by lia.
  destruct (Byte.of_N c) as [b|] eqn:E.
  - now apply Byte.to_of_N.
  - apply Byte.of_N_None_iff in E. lia.
Qed.

(** X4. What the generator writes is a PDF for the loader, whatever the
    text: the loader returns the generated bytes as they are.  The bytes are
    the header line, the encoded text and the end marker; a text of characters
    below 128 is there byte for byte. *)
Theorem generated_sample_loads (text : list N) :
  load_pdf_binary (Bytes (make_minimal_pdf_bytes text)) = ret (make_minimal_pdf_bytes text)
  /\ make_minimal_pdf_bytes text
     = [x25; x50; x44; x46; x2d; x31; x2e; x34; x0a]
         ++ encode_utf8_replace text ++ [x0a; x25; x25; x45; x4f; x46; x0a]
  /\ (Forall (fun c => (c < 128)%N) text ->
      map Byte.to_N (encode_utf8_replace text) = text).
Proof.
  assert (E : make_minimal_pdf_bytes text
              = [x25; x50; x44; x46; x2d; x31; x2e; x34; x0a]
                  ++ encode_utf8_replace text ++ [x0a; x25; x25; x45; x4f; x46; x0a]).
  { unfold make_minimal_pdf_bytes. now rewrite !encode_utf8_replace_app. }
  split; [|split; [exact E|apply encode_utf8_ascii]].
  rewrite load_pdf_binary_bytes, E. reflexivity.
Qed.

(** ** Candidate normalization *)

Lemma dict_mem_app d d' k : dict_mem (d ++ d') k = dict_mem d k || dict_mem d' k.
Proof.
  induction d as [|[k' v] d IH]; [reflexivity|].
  cbn. now destruct (k' =? k)%string.
Qed.

Lemma dict_get_app d d' k default :
  dict_get (d ++ d') k default
  = if dict_mem d k then dict_get d k default else dict_get d' k default.
Proof.
  induction d as [|[k' v] d IH]; [reflexivity|].
  cbn. now destruct (k' =? k)%string.
Qed.

Lemma dict_mem_setdefault d k v k' :
  dict_mem (dict_setdefault d k v) k' = dict_mem d k' || (k =? k')%string.
Proof.
  unfold dict_setdefault. destruct (dict_mem d k) eqn:E.
  - destruct (String.eqb_spec k k') as [<-|ne]; [now rewrite E|now rewrite orb_false_r].
  - rewrite dict_mem_app. cbn. now destruct (k =? k')%string.
Qed.

Lemma dict_get_setdefault d k v k' default :
  dict_get (dict_setdefault d k v) k' default
  = if dict_mem d k' then dict_get d k' default
    else if (k =? k')%string then v else default.
Proof.
  unfold dict_setdefault. destruct (dict_mem d k) eqn:E.
  - destruct (dict_mem d k') eqn:E'; [reflexivity|].
    destruct (String.eqb_spec k k') as [<-|ne]; [congruence|].
    clear E. induction d as [|[k0 v0] d IH]; [reflexivity|].
    cbn in *. destruct (k0 =? k')%string; [discriminate|auto].
  - rewrite dict_get_app. destruct (dict_mem d k'); [reflexivity|].
    cbn. now destruct (k =? k')%string.
Qed.

Lemma dict_setdefault_present d k v : dict_mem d k = true -> dict_setdefault d k v = d.
Proof. unfold dict_setdefault. now intros ->. Qed.

(** X5. After normalization the five structural keys are there; a key the
    candidate had keeps its value, whatever that value is; a structural key it
    lacked holds its empty default; and the candidate's own entries come first,
    in their order. *)
Theorem normalize_candidate_fills_defaults (raw : dict) :
  (forall k v, In (k, v) normalize_defaults ->
     dict_mem (normalize_candidate raw) k = true
     /\ (dict_mem raw k = false -> forall default,
           dict_get (normalize_candidate raw) k default = v))
  /\ (forall k default, dict_mem raw k = true ->
        dict_get (normalize_candidate raw) k default = dict_get raw k default)
  /\ (forall k, dict_mem (normalize_candidate raw) k = true ->
        dict_mem raw k = true \/ dict_mem normalize_defaults k = true)
  /\ exists added, normalize_candidate raw = raw ++ added.
Proof.
  split; [|split; [|split]].
  - intros k v H. unfold normalize_candidate. split.
    + rewrite !dict_mem_setdefault.
      cbn in H. decompose [or] H; try contradiction;
        match goal with E : (_, _) = (_, _) |- _ => injection E as <- <- end;
        cbn; now destruct (dict_mem raw _).
    + intros Hm default. rewrite !dict_get_setdefault, !dict_mem_setdefault, Hm.
      cbn in H. decompose [or] H; try contradiction;
        match goal with E : (_, _) = (_, _) |- _ => injection E as <- <- end;
        reflexivity.
  - intros k default Hm. unfold normalize_candidate.
    now rewrite !dict_get_setdefault, !dict_mem_setdefault, Hm.
  - intros k H. unfold normalize_candidate in H. rewrite !dict_mem_setdefault in H.
    destruct (dict_mem raw k); [now left|right].
    unfold normalize_defaults. cbn [dict_mem].
    repeat match goal with
           | |- context [(?a =? k)%string] => destruct (a =? k)%string; [reflexivity|]
           end.
    cbn [orb] in H. discriminate.
  - unfold normalize_candidate, dict_setdefault.
    repeat match goal with
           | |- context [if dict_mem ?d ?k then _ else _] => destruct (dict_mem d k)
           end;
    rewrite <- ?app_assoc; eexists; try reflexivity; now rewrite app_nil_r.
Qed.

(** X6. Normalizing twice is normalizing once, so the prompt of a candidate
    is the prompt of its normalized form. *)
Theorem normalize_candidate_idempotent (json_dumps : pyval -> string) (raw config : dict) :
  normalize_candidate (normalize_candidate raw) = normalize_candidate raw
  /\ build_prompt_for_candidate json_dumps (normalize_candidate raw) config
     = build_prompt_for_candidate json_dumps raw config.
Proof.
  assert (E : normalize_candidate (normalize_candidate raw) = normalize_candidate raw).
  { unfold normalize_candidate at 1.
    rewrite !dict_setdefault_present; [reflexivity|..];
      unfold normalize_candidate; rewrite !dict_mem_setdefault; cbn;
      now rewrite ?orb_true_r. }
  split; [exact E|]. unfold build_prompt_for_candidate. now rewrite E.
Qed.

(** ** Strings: concatenation, trimming, slicing *)

Lemma length_app_string a b :
  String.length (a ++ b)%string = (String.length a + String.length b)%nat.
Proof. induction a as [|c a IH]; cbn; [reflexivity|now rewrite IH]. Qed.

Lemma app_assoc_string a b c : ((a ++ b) ++ c = a ++ (b ++ c))%string.
Proof. induction a as [|x a IH]; cbn; [reflexivity|now rewrite IH]. Qed.

Lemma app_nil_string a : (a ++ "")%string = a.
Proof. induction a as [|x a IH]; cbn; [reflexivity|now rewrite IH]. Qed.

Lemma absent_nil c : absent c EmptyString.
Proof. intros k. now destruct k. Qed.

Lemma absent_cons c a s : a <> c -> absent c s -> absent c (String a s).
Proof.
  intros ne H k. destruct k as [|k]; cbn; [congruence|apply H].
Qed.

Lemma absent_app c a b : absent c (a ++ b)%string <-> absent c a /\ absent c b.
Proof.
  induction a as [|x a IH]; cbn.
  - split; [intros H; split; [apply absent_nil|exact H] | tauto].
  - split.
    + intros H. apply absent_tail in H as [ne H]. apply IH in H as [Ha Hb].
      split; [now apply absent_cons|exact Hb].
    + intros [Ha Hb]. apply absent_tail in Ha as [ne Ha].
      apply absent_cons; [exact ne|]. apply IH. now split.
Qed.

Lemma absent_lstrip c s : absent c s -> absent c (Str.lstrip s).
Proof.
  induction s as [|a s IH]; intros H; [exact H|].
  cbn. destruct (Str.is_space a); [|exact H].
  apply IH. now apply absent_tail in H.
Qed.

Lemma absent_rstrip c s : absent c s -> absent c (Str.rstrip s).
Proof.
  induction s as [|a s IH]; intros H; [exact H|].
  apply absent_tail in H as [ne H]. specialize (IH H). cbn.
  destruct (Str.rstrip s) as [|b r].
  - destruct (Str.is_space a); [apply absent_nil|].
    apply absent_cons; [exact ne|apply absent_nil].
  - now apply absent_cons.
Qed.

Lemma lstrip_app pre a s :
  Str.is_space a = false ->
  Str.lstrip (pre ++ String a s) = (Str.lstrip pre ++ String a s)%string.
Proof.
  intros Ha. induction pre as [|c pre IH]; cbn; [now rewrite Ha|].
  destruct (Str.is_space c); [exact IH|reflexivity].
Qed.

Lemma rstrip_app s a post :
  Str.is_space a = false ->
  Str.rstrip (s ++ String a post) = (s ++ String a (Str.rstrip post))%string.
Proof.
  intros Ha. induction s as [|c s IH].
  - cbn. destruct (Str.rstrip post); [now rewrite Ha|reflexivity].
  - cbn [append Str.rstrip]. rewrite IH. now destruct s.
Qed.

(** Trimming a text around a part that begins and ends with a character
    that is no white space. *)
Lemma strip_around pre a mid b post :
  Str.is_space a = false -> Str.is_space b = false ->
  Str.strip (pre ++ String a (mid ++ String b post))
  = (Str.lstrip pre ++ String a (mid ++ String b (Str.rstrip post)))%string.
Proof.
  intros Ha Hb. unfold Str.strip. rewrite (lstrip_app pre a _ Ha).
  change (String a (mid ++ String b post)) with (String a mid ++ String b post)%string.
  rewrite <- app_assoc_string, (rstrip_app _ b post Hb), app_assoc_string.
  reflexivity.
Qed.

Lemma find_from_app c pre s : forall i,
  absent c pre ->
  Str.find_from (String c EmptyString) (pre ++ s) i
  = Str.find_from (String c EmptyString) s (i + Z.of_nat (String.length pre)).
Proof.
  induction pre as [|a pre IH]; intros i H.
  - cbn [append String.length]. f_equal. lia.
  - apply absent_tail in H as [ne H].
    cbn [append Str.find_from]. rewrite prefix_char.
    replace (Ascii.eqb c a) with false by (symmetry; apply Ascii.eqb_neq; congruence).
    rewrite IH by assumption. f_equal. cbn [String.length]. lia.
Qed.

Lemma find_from_head c s i : Str.find_from (String c EmptyString) (String c s) i = i.
Proof. cbn [Str.find_from]. now rewrite prefix_char, Ascii.eqb_refl. Qed.

Lemma rfind_from_app c s post : forall i,
  0 <= i -> absent c post ->
  Str.rfind_from (String c EmptyString) (s ++ String c post) i
  = i + Z.of_nat (String.length s).
Proof.
  induction s as [|a s IH]; intros i Hi H.
  - cbn [append Str.rfind_from String.length].
    rewrite (rfind_from_absent c post (i + 1) H), prefix_char, Ascii.eqb_refl. cbn. lia.
  - cbn [append Str.rfind_from String.length]. rewrite IH by (assumption || lia).
    replace (i + 1 + Z.of_nat (String.length s) =? -1) with false
      by (symmetry; apply Z.eqb_neq; lia).
    lia.
Qed.

Lemma substring_skip pre s m :
  substring (String.length pre) m (pre ++ s) = substring 0 m s.
Proof. induction pre as [|a pre IH]; [reflexivity|exact IH]. Qed.

Lemma substring_take a b : substring 0 (String.length a) (a ++ b) = a.
Proof.
  induction a as [|x a IH]; cbn.
  - now destruct b.
  - now rewrite IH.
Qed.

(** The slice that cuts [mid] out of [pre ++ mid ++ post]. *)
Lemma slice_middle pre mid post :
  Str.slice (pre ++ mid ++ post)
    (Some (Z.of_nat (String.length pre)))
    (Some (Z.of_nat (String.length pre) + Z.of_nat (String.length mid)))
  = mid.
Proof.
  unfold Str.slice, Str.clamp, Str.len. rewrite !length_app_string.
  set (p := String.length pre). set (m := String.length mid). set (q := String.length post).
  replace (Z.of_nat p <? 0) with false by (symmetry; apply Z.ltb_ge; lia).
  replace (Z.of_nat p + Z.of_nat m <? 0) with false by (symmetry; apply Z.ltb_ge; lia).
  replace (Z.to_nat (Z.max 0 (Z.min (Z.of_nat (p + (m + q))) (Z.of_nat p)))) with p by lia.
  replace (Z.to_nat (Z.max 0 (Z.min (Z.of_nat (p + (m + q))) (Z.of_nat p + Z.of_nat m))
                     - Z.max 0 (Z.min (Z.of_nat (p + (m + q))) (Z.of_nat p)))) with m by lia.
  subst p m. rewrite substring_skip. apply substring_take.
Qed.

Lemma substring_all s : substring 0 (String.length s) s = s.
Proof. rewrite <- (app_nil_string s) at 2. apply substring_take. Qed.

Lemma slice_from pre s :
  Str.slice (pre ++ s) (Some (Z.of_nat (String.length pre))) None = s.
Proof.
  unfold Str.slice, Str.clamp, Str.len. rewrite !length_app_string.
  set (p := String.length pre). set (m := String.length s).
  replace (Z.of_nat p <? 0) with false by (symmetry; apply Z.ltb_ge; lia).
  replace (Z.to_nat (Z.max 0 (Z.min (Z.of_nat (p + m)) (Z.of_nat p)))) with p by lia.
  replace (Z.to_nat (Z.of_nat (p + m) - Z.max 0 (Z.min (Z.of_nat (p + m)) (Z.of_nat p))))
    with m by lia.
  subst p m. rewrite substring_skip. apply substring_all.
Qed.

Lemma slice_drop_three s :
  Str.slice (s ++ "```") None (Some (-3)) = s.
Proof.
  unfold Str.slice, Str.clamp, Str.len. rewrite !length_app_string.
  cbn [String.length]. set (m := String.length s).
  change (-3 <? 0) with true. cbv iota.
  replace (Z.to_nat (Z.max 0 (Z.min (Z.of_nat (m + 3)) (-3 + Z.of_nat (m + 3))) - 0))
    with m by lia.
  change (Z.to_nat 0) with 0%nat. apply substring_take.
Qed.

Lemma last_char_app a c b : last_char (a ++ String c b) = last_char (String c b).
Proof.
  induction a as [|x a IH]; [reflexivity|].
  cbn [append last_char] in *. rewrite IH. now destruct (last_char b).
Qed.

Lemma last_char_absent c s : absent c s -> last_char s <> Some c.
Proof.
  induction s as [|a s IH]; intros H; [discriminate|].
  apply absent_tail in H as [ne H]. specialize (IH H). cbn.
  destruct (last_char s); congruence.
Qed.

Lemma substring_split s : forall n,
  (n <= String.length s)%nat ->
  s = (substring 0 n s ++ substring n (String.length s - n) s)%string.
Proof.
  induction s as [|a s IH]; intros n Hn.
  - now destruct n.
  - destruct n as [|n]; cbn [substring append String.length Nat.sub].
    + now rewrite substring_all.
    + cbn in Hn. rewrite <- IH by lia. reflexivity.
Qed.

Lemma endswith_inv s p : Str.endswith s p = true -> exists t, s = (t ++ p)%string.
Proof.
  unfold Str.endswith. intros H. apply andb_true_iff in H as [Hl He].
  apply Nat.leb_le in Hl. apply String.eqb_eq in He.
  exists (substring 0 (String.length s - String.length p) s).
  pose proof (substring_split s (String.length s - String.length p)) as H.
  replace (String.length s - (String.length s - String.length p))%nat
    with (String.length p) in H by lia.
  rewrite He in H. apply H. lia.
Qed.

Lemma endswith_app s p : Str.endswith (s ++ p) p = true.
Proof.
  unfold Str.endswith. rewrite length_app_string. apply andb_true_iff. split.
  - apply Nat.leb_le. lia.
  - replace (String.length s + String.length p - String.length p)%nat
      with (String.length s) by lia.
    rewrite substring_skip, substring_all. apply String.eqb_refl.
Qed.

(** A text that ends in a brace, or in prose without a backtick after a
    brace, does not end with a fence; one that begins with prose without a
    backtick and then a brace does not begin with one. *)
Lemma no_fence_at_end s b post :
  b <> "`"%char -> absent "`" post -> Str.endswith (s ++ String b post) "```" = false.
Proof.
  intros Hb Hp. destruct (Str.endswith (s ++ String b post) "```") eqn:E; [|reflexivity].
  apply endswith_inv in E as [t E]. apply (f_equal last_char) in E.
  rewrite last_char_app in E.
  change "```"%string with (String "`" (String "`" (String "`" ""))) in E.
  rewrite (last_char_app t "`" "``") in E. cbn [last_char] in E.
  pose proof (last_char_absent _ _ Hp). destruct (last_char post); congruence.
Qed.

Lemma no_fence_at_start pre b s :
  b <> "`"%char -> absent "`" pre -> Str.startswith (pre ++ String b s) "```" = false.
Proof.
  intros Hb Hp. unfold Str.startswith. destruct pre as [|a pre]; cbn [append prefix].
  - destruct (ascii_dec "`" b); congruence.
  - apply absent_tail in Hp as [ne _]. destruct (ascii_dec "`" a); congruence.
Qed.

Lemma strip_fences_plain text :
  Str.startswith text "```" = false -> Str.endswith text "```" = false ->
  strip_fences text = text.
Proof. unfold strip_fences. now intros -> ->. Qed.

(** ** The reply parser and the text around the object *)

(** The first opening and the last closing brace, and the slice between
    them. *)
Lemma braces_located pre body post :
  absent "{" pre -> absent "}" post ->
  let object := String "{" (body ++ "}") in
  let text := (pre ++ object ++ post)%string in
  Str.find text "{" = Z.of_nat (String.length pre)
  /\ Str.rfind text "}" = Z.of_nat (String.length pre) + Z.of_nat (String.length object) - 1
  /\ Str.slice text (Some (Str.find text "{")) (Some (Str.rfind text "}" + 1)) = object.
Proof.
  intros Hpre Hpost object text.
  assert (F : Str.find text "{" = Z.of_nat (String.length pre)).
  { unfold Str.find, text, object. rewrite find_from_app by assumption.
    cbn [append]. rewrite find_from_head. lia. }
  assert (R : Str.rfind text "}"
              = Z.of_nat (String.length pre) + Z.of_nat (String.length object) - 1).
  { unfold Str.rfind, text, object.
    replace (pre ++ String "{" (body ++ "}") ++ post)%string
      with ((pre ++ String "{" body) ++ String "}" post)%string.
    - rewrite rfind_from_app by (assumption || lia).
      rewrite length_app_string. cbn [String.length]. rewrite length_app_string.
      cbn [String.length]. lia.
    - rewrite app_assoc_string. cbn [append]. now rewrite app_assoc_string. }
  split; [exact F|]. split; [exact R|].
  rewrite F, R.
  replace (Z.of_nat (String.length pre) + Z.of_nat (String.length object) - 1 + 1)
    with (Z.of_nat (String.length pre) + Z.of_nat (String.length object)) by lia.
  apply slice_middle.
Qed.

Lemma parse_text_framed json_loads pre body post :
  absent "{" pre -> absent "}" post ->
  parse_text json_loads (pre ++ String "{" (body ++ "}") ++ post)
  = parse_text json_loads (String "{" (body ++ "}")).
Proof.
  assert (G : forall pre post, absent "{" pre -> absent "}" post ->
            parse_text json_loads (pre ++ String "{" (body ++ "}") ++ post)
            = match json_loads (String "{" (body ++ "}")) with
              | Loaded v => ret v
              | LoadsRaised e => inl e
              | DecodeError msg pos =>
                  match json_loads (String "{" (body ++ "}") ++ "}")%string with
                  | Loaded v => ret v
                  | LoadsRaised e' => inl e'
                  | DecodeError _ _ =>
                      raise ValueError (parse_failure msg pos (String "{" (body ++ "}")))
                  end
              end).
  { intros p q Hp Hq. destruct (braces_located p body q Hp Hq) as (F & R & S).
    unfold parse_text. rewrite S, F, R.
    replace (Z.of_nat (String.length p) =? -1) with false
      by (symmetry; apply Z.eqb_neq; lia).
    replace (Z.of_nat (String.length p) + Z.of_nat (String.length (String "{" (body ++ "}"))) - 1
             =? -1) with false
      by (symmetry; apply Z.eqb_neq; cbn [String.length]; lia).
    replace (Z.of_nat (String.length p) + Z.of_nat (String.length (String "{" (body ++ "}"))) - 1
             <? Z.of_nat (String.length p)) with false
      by (symmetry; apply Z.ltb_ge; cbn [String.length]; lia).
    reflexivity. }
  intros Hpre Hpost. rewrite (G pre post Hpre Hpost).
  rewrite <- (G "" "" (absent_nil _) (absent_nil _)).
  cbn [append]. now rewrite app_nil_string.
Qed.

(** X7. Prose around the object is ignored: when the text before the object
    holds no opening brace and the text after it no closing brace, and neither
    holds a backtick, the reply parses as the object alone does. *)
Theorem parse_ignores_surrounding_text (json_loads : string -> loads_result)
    (pre body post : string) :
  absent "{" pre -> absent "`" pre -> absent "}" post -> absent "`" post ->
  parse_llm_json_response json_loads (PStr (pre ++ String "{" (body ++ "}") ++ post))
  = parse_llm_json_response json_loads (PStr (String "{" (body ++ "}"))).
Proof.
  intros Hpre Hpre' Hpost Hpost'.
  assert (G : forall p q, absent "{" p -> absent "`" p -> absent "}" q -> absent "`" q ->
            parse_llm_json_response json_loads (PStr (p ++ String "{" (body ++ "}") ++ q))
            = parse_text json_loads (String "{" (body ++ "}"))).
  { intros p q Hp Hp' Hq Hq'. unfold parse_llm_json_response. cbn [py_strip bind ret].
    replace (p ++ String "{" (body ++ "}") ++ q)%string
      with (p ++ String "{" (body ++ String "}" q))%string
      by (cbn [append]; now rewrite app_assoc_string).
    rewrite strip_around by reflexivity.
    rewrite strip_fences_plain.
    - replace (Str.lstrip p ++ String "{" (body ++ String "}" (Str.rstrip q)))%string
        with (Str.lstrip p ++ String "{" (body ++ "}") ++ Str.rstrip q)%string
        by (cbn [append]; now rewrite app_assoc_string).
      apply parse_text_framed; [now apply absent_lstrip|now apply absent_rstrip].
    - apply no_fence_at_start; [discriminate|now apply absent_lstrip].
    - replace (Str.lstrip p ++ String "{" (body ++ String "}" (Str.rstrip q)))%string
        with ((Str.lstrip p ++ String "{" body) ++ String "}" (Str.rstrip q))%string
        by (rewrite app_assoc_string; reflexivity).
      apply no_fence_at_end; [discriminate|now apply absent_rstrip]. }
  rewrite (G pre post) by assumption.
  rewrite <- (G "" "") by apply absent_nil.
  cbn [append]. now rewrite app_nil_string.
Qed.

Lemma lacks_absent c s : lacks c s = true -> absent c s.
Proof.
  induction s as [|a s IH]; intros H; [apply absent_nil|].
  cbn in H. apply andb_true_iff in H as [Ha Hs].
  apply absent_cons; [|now apply IH].
  apply negb_true_iff, Ascii.eqb_neq in Ha. exact Ha.
Qed.

Lemma parse_ignores_surrounding_text_witness :
  parse_llm_json_response RefJson.loads
    (PStr ("Sure, here is the result: " ++ Stub.score_reply "0.5" ++ " Hope this helps!"))
  = ret (PDict [("score", PFloat half)]).
Proof.
  pose proof (parse_ignores_surrounding_text RefJson.loads
                "Sure, here is the result: " (q "score" ++ ": 0.5") " Hope this helps!") as H.
  change (String "{" ((q "score" ++ ": 0.5") ++ "}"))%string with (Stub.score_reply "0.5") in H.
  rewrite H by (apply lacks_absent; reflexivity).
  vm_compute. reflexivity.
Defined.

(** ** The reply parser and code fences *)

(** What is left of a fenced block: the text between the line of the
    opening fence and the closing fence, trimmed. *)
Lemma strip_fences_fenced lang inner :
  absent Str.nl_char lang ->
  strip_fences ("```" ++ lang ++ Str.nl ++ inner ++ "```") = Str.strip inner.
Proof.
  intros Hl. unfold strip_fences.
  assert (S : Str.startswith ("```" ++ lang ++ Str.nl ++ inner ++ "```") "```" = true).
  { unfold Str.startswith. cbn [append prefix].
    destruct (ascii_dec "`" "`"); [|congruence].
    now destruct (lang ++ Str.nl ++ inner ++ "```")%string. }
  rewrite S.
  assert (F : Str.find ("```" ++ lang ++ Str.nl ++ inner ++ "```") Str.nl
              = Z.of_nat (String.length ("```" ++ lang))).
  { unfold Str.find, Str.nl.
    replace ("```" ++ lang ++ String (ascii_of_nat 10) "" ++ inner ++ "```")%string
      with (("```" ++ lang) ++ String (ascii_of_nat 10) (inner ++ "```"))%string
      by (rewrite app_assoc_string; reflexivity).
    rewrite find_from_app, find_from_head; [lia|].
    apply absent_app. split; [apply lacks_absent; reflexivity|exact Hl]. }
  rewrite F.
  replace (Z.of_nat (String.length ("```" ++ lang)) =? -1) with false
    by (symmetry; apply Z.eqb_neq; lia).
  cbv [negb].
  replace (Str.slice ("```" ++ lang ++ Str.nl ++ inner ++ "```")
             (Some (Z.of_nat (String.length ("```" ++ lang)) + 1)) None)
    with (inner ++ "```")%string.
  - rewrite endswith_app, slice_drop_three. reflexivity.
  - replace ("```" ++ lang ++ Str.nl ++ inner ++ "```")%string
      with ((("```" ++ lang) ++ Str.nl) ++ (inner ++ "```"))%string
      by (now rewrite !app_assoc_string).
    replace (Z.of_nat (String.length ("```" ++ lang)) + 1)
      with (Z.of_nat (String.length (("```" ++ lang) ++ Str.nl)))
      by (rewrite (length_app_string ("```" ++ lang) Str.nl); cbn [String.length Str.nl]; lia).
    now rewrite slice_from.
Qed.

(** X8. A reply wrapped in a fenced block parses as its inside does: when
    the trimmed reply is an opening fence with an optional language tag on its
    line, then the inside, then the closing fence, and the inside is not fenced
    itself, the result is that of the inside given alone. *)
Theorem parse_ignores_code_fence (json_loads : string -> loads_result)
    (raw lang inner : string) :
  Str.strip raw = ("```" ++ lang ++ Str.nl ++ inner ++ "```")%string ->
  absent Str.nl_char lang ->
  Str.startswith (Str.strip inner) "```" = false ->
  Str.endswith (Str.strip inner) "```" = false ->
  parse_llm_json_response json_loads (PStr raw)
  = parse_llm_json_response json_loads (PStr inner).
Proof.
  intros Hraw Hl Hs He. unfold parse_llm_json_response. cbn [py_strip bind ret].
  rewrite Hraw, (strip_fences_fenced lang inner Hl).
  now rewrite (strip_fences_plain (Str.strip inner) Hs He).
Qed.

Lemma parse_ignores_code_fence_witness :
  parse_llm_json_response RefJson.loads
    (PStr ("```json" ++ Str.nl ++ Stub.score_reply "0.5" ++ Str.nl ++ "```" ++ Str.nl))
  = ret (PDict [("score", PFloat half)]).
Proof.
  rewrite (parse_ignores_code_fence RefJson.loads _ "json"
             (Stub.score_reply "0.5" ++ Str.nl)).
  - vm_compute. reflexivity.
  - vm_compute. reflexivity.
  - apply lacks_absent. reflexivity.
  - vm_compute. reflexivity.
  - vm_compute. reflexivity.
Defined.

Lemma length_replace1 old new s : String.length (Str.replace1 old new s) = String.length s.
Proof. induction s as [|c s IH]; cbn; congruence. Qed.

Lemma absent_replace1 old new s : old <> new -> absent old (Str.replace1 old new s).
Proof.
  intros Hn. induction s as [|c s IH]; [apply absent_nil|].
  cbn [Str.replace1]. apply absent_cons; [|exact IH].
  destruct (Ascii.eqb c old) eqn:E; [congruence|]. now apply Ascii.eqb_neq in E.
Qed.

Lemma length_substring_head s : forall m,
  String.length (substring 0 m s) = Nat.min m (String.length s).
Proof.
  induction s as [|c s IH]; intros [|m]; cbn; try reflexivity. now rewrite IH.
Qed.

Lemma length_slice_head s n :
  0 <= n -> String.length (Str.slice s None (Some n)) = Nat.min (Z.to_nat n) (String.length s).
Proof.
  intros Hn. unfold Str.slice, Str.clamp, Str.len.
  replace (n <? 0) with false by (symmetry; apply Z.ltb_ge; lia).
  rewrite Z.sub_0_r. change (Z.to_nat 0) with 0%nat. rewrite length_substring_head. lia.
Qed.



(** ** Runs in which no scorer call succeeds *)

(** Records without a score are left in place by the sort. *)
Lemma sorted_unscored results :
  Forall (fun r => llm_score r = None) results ->
  sorted key_ltb sort_key results = results.
Proof.
  induction 1 as [|x l Hx Hl IH]; [reflexivity|].
  cbn [sorted fold_right]. fold (sorted key_ltb sort_key l). rewrite IH.
  destruct Hl as [|y l' Hy _]; [reflexivity|].
  cbn [insert_by]. unfold sort_key. rewrite Hx, Hy. reflexivity.
Qed.

Section NoScorer.

Variable World : Type.
Variable json_loads : string -> loads_result.
Variable json_dumps : pyval -> string.
Variable repr : pyval -> string.
Variable config : dict.

Local Notation evaluate backend client :=
  (evaluate_candidates_with_llm World json_loads json_dumps repr backend config client).

(** A scorer that raises [e] on every prompt and leaves the world alone fails
    every candidate alike. *)
Lemma loop_all_fail backend client e :
  (forall prompt w, call_llm World backend prompt client w = (inl e, w)) ->
  forall candidates acc w,
    evaluate_loop World json_loads json_dumps repr backend config client candidates acc w
    = (inr (acc ++ all_failed e candidates), w).
Proof.
  intros Hc. induction candidates as [|cand rest IH]; intros acc w.
  - cbn. now rewrite app_nil_r.
  - cbn [evaluate_loop]. unfold attempt. rewrite Hc. cbn [bind].
    rewrite IH. unfold all_failed. cbn [map]. now rewrite <- app_assoc.
Qed.

Lemma evaluate_all_fail backend client e :
  (forall prompt w, call_llm World backend prompt client w = (inl e, w)) ->
  forall candidates w, evaluate backend client candidates w = (inr (all_failed e candidates), w).
Proof.
  intros Hc candidates w. unfold evaluate_candidates_with_llm.
  rewrite (loop_all_fail backend client e Hc). cbn [bind ret List.app].
  rewrite sorted_unscored; [reflexivity|].
  unfold all_failed. apply Forall_map, Forall_forall. reflexivity.
Qed.



End NoScorer.


(** ** The scorer calls of a run *)

Section Calls.

Variable json_loads : string -> loads_result.
Variable json_dumps : pyval -> string.
Variable repr : pyval -> string.
Variable llm_backend : option (option (scorer (list string))).
Variable config : dict.
Variable answer : string -> result pyval.

Local Notation prompt_for := (fun cand => build_prompt_for_candidate json_dumps cand config).
Local Notation loop :=
  (evaluate_loop (list string) json_loads json_dumps repr llm_backend config
     (Some (logging_client answer))).
Local Notation evaluate :=
  (evaluate_candidates_with_llm (list string) json_loads json_dumps repr llm_backend config
     (Some (logging_client answer))).

(** The run stops at [cand] with [e]: the scorer answered for [cand], the
    answer parsed, and building the record raised [e]. *)
Let stops_at (cand : dict) (e : exn) : Prop :=
  exists raw parsed,
    answer (prompt_for cand) = inr raw
    /\ parse_llm_json_response json_loads raw = inr parsed
    /\ success_record repr cand raw parsed = inl e.

Lemma loop_calls candidates : forall acc w,
  (exists rs, loop candidates acc w = (inr rs, w ++ map prompt_for candidates))
  \/ (exists pre cand post e,
        candidates = pre ++ cand :: post
        /\ loop candidates acc w = (inl e, w ++ map prompt_for (pre ++ [cand]))
        /\ stops_at cand e).
Proof.
  induction candidates as [|cand rest IH]; intros acc w.
  - left. exists acc. cbn. now rewrite app_nil_r.
  - assert (Next : forall acc',
              (exists rs, loop rest acc' (w ++ [prompt_for cand])
                          = (inr rs, w ++ map prompt_for (cand :: rest)))
              \/ (exists pre c post e,
                    cand :: rest = pre ++ c :: post
                    /\ loop rest acc' (w ++ [prompt_for cand])
                       = (inl e, w ++ map prompt_for (pre ++ [c]))
                    /\ stops_at c e)).
    { intros acc'.
      destruct (IH acc' (w ++ [prompt_for cand]))
        as [(rs & H)|(pre & c & post & e & Hc & H & Hs)].
      - left. exists rs. rewrite H. cbn [map]. now rewrite <- app_assoc.
      - right. exists (cand :: pre), c, post, e. split; [now rewrite Hc|].
        split; [|exact Hs]. rewrite H. cbn [map List.app]. now rewrite <- app_assoc. }
    cbn [evaluate_loop]. unfold attempt. cbn [call_llm logging_client].
    destruct (answer (prompt_for cand)) as [e|raw] eqn:Ea; cbn [bind].
    + apply Next.
    + destruct (parse_llm_json_response json_loads raw) as [e|parsed] eqn:Ep; cbn [bind ret].
      * apply Next.
      * destruct (success_record repr cand raw parsed) as [e|rec] eqn:Es.
        -- right. exists [], cand, rest, e. split; [reflexivity|]. split; [reflexivity|].
           now exists raw, parsed.
        -- apply Next.
Qed.


End Calls.

(** ** What the returned records are *)

Section Provenance.

Variable World : Type.
Variable json_loads : string -> loads_result.
Variable json_dumps : pyval -> string.
Variable repr : pyval -> string.
Variable llm_backend : option (option (scorer World)).
Variable config : dict.
Variable llm_client : option (scorer World).

Local Notation body := (loop_body json_loads json_dumps repr llm_backend config llm_client).
Local Notation loop :=
  (evaluate_loop World json_loads json_dumps repr llm_backend config llm_client).
Local Notation evaluate :=
  (evaluate_candidates_with_llm World json_loads json_dumps repr llm_backend config llm_client).

(** A record built from the reply [reply] of the scorer for [cand]: the reply
    is a string, it parses to a mapping, and the record is the canonical form
    of that mapping. *)
Let built_from (cand : dict) (r : canonical) : Prop :=
  exists reply d,
    raw_llm_output r = PStr reply
    /\ parse_llm_json_response json_loads (PStr reply) = inr (PDict d)
    /\ success_record repr cand (PStr reply) (PDict d) = inr r.

Lemma body_provenance cand w r w' :
  body cand w = (inr r, w') ->
  (failed r /\ exists e, r = failure_record cand e) \/ built_from cand r.
Proof.
  unfold loop_body, attempt.
  destruct (call_llm World llm_backend _ llm_client w) as [[e|raw] w1]; cbn [bind].
  - intros [= <- _]. left. split; [|now exists e]. repeat split. now exists (exc_str e).
  - destruct (parse_llm_json_response json_loads raw) as [e|parsed] eqn:Hp; cbn [bind ret].
    + intros [= <- _]. left. split; [|now exists e]. repeat split. now exists (exc_str e).
    + intros [= Hs _]. right.
      destruct raw as [| | | |reply| |]; try discriminate Hp.
      destruct parsed as [| | | | | |d]; try discriminate Hs.
      exists reply, d. split; [|split; [exact Hp|exact Hs]].
      now apply success_record_fields in Hs as (_ & _ & _ & _ & _ & ->).
Qed.

Lemma loop_provenance candidates : forall w rs w',
  loop candidates [] w = (inr rs, w') ->
  Forall2 (fun cand r => (failed r /\ exists e, r = failure_record cand e)
                         \/ built_from cand r) candidates rs.
Proof.
  induction candidates as [|cand rest IH]; intros w rs w'.
  - intros [= <- _]. constructor.
  - rewrite loop_step. destruct (body cand w) as [[e|rec] w1] eqn:Hb; [discriminate|].
    destruct (loop rest [] w1) as [[e|rs'] w2] eqn:Hl; [discriminate|].
    intros [= <- _]. constructor; [eapply body_provenance; eassumption|eapply IH; eassumption].
Qed.

(** Both scores of a canonical record are there or both are missing. *)
Lemma scores_paired cand raw d r :
  success_record repr cand raw (PDict d) = inr r ->
  is_none (llm_score r) = is_none (score_10 r).
Proof.
  intros H. apply success_record_fields in H as (H1 & H2 & _).
  unfold float_or_none in H1, H2.
  destruct (dict_get d "score" PNone) as [|b|z|f|s|l|m];
    cbn [is_int_or_float times_ten] in H1, H2;
    repeat match goal with
           | H : bind ?m _ = inr _ |- _ =>
               destruct m; [discriminate H|]; cbn [bind] in H
           end;
    unfold ret in H1, H2; injection H1 as <-; injection H2 as <-; reflexivity.
Qed.

(** X15. Every record of a returned ranking is of one of two kinds, and
    [raw_llm_output] tells which.  Either it is the failure record of one of
    the candidates: no reply, no scores, an empty breakdown, not passed, no
    explanation, and the single reason "LLM error: ..." .  Or it holds the
    reply of the scorer, a string, and is what parsing that very reply and
    canonicalizing the result give for one of the candidates.  In both kinds
    [llm_score] and [score_10] are both there or both missing. *)
Theorem records_are_failures_or_replies candidates w rs w' :
  evaluate candidates w = (inr rs, w') ->
  Forall (fun r =>
            is_none (llm_score r) = is_none (score_10 r)
            /\ exists cand, In cand candidates
                 /\ ((failed r /\ exists e, r = failure_record cand e)
                     \/ exists reply d,
                          raw_llm_output r = PStr reply
                          /\ parse_llm_json_response json_loads (PStr reply) = inr (PDict d)
                          /\ success_record repr cand (PStr reply) (PDict d) = inr r)) rs.
Proof.
  intros H. apply evaluate_returns in H as (results & Hl & ->).
  eapply Permutation_Forall; [symmetry; apply sorted_perm|].
  apply loop_provenance in Hl. clear w w'.
  induction Hl as [|cand r cs rs' Hr _ IH]; constructor.
  - split.
    + destruct Hr as [[(_ & -> & -> & _) _]|(reply & d & _ & _ & Hs)]; [reflexivity|].
      eapply scores_paired, Hs.
    + exists cand. split; [now left|]. exact Hr.
  - eapply Forall_impl; [|exact IH]. intros r' (Hp & c & Hc & Hk).
    split; [exact Hp|]. exists c. split; [now right|exact Hk].
Qed.

End Provenance.

Lemma records_are_failures_or_replies_witness :
  Forall (fun r => is_none (llm_score r) = is_none (score_10 r)) Stub.scenario_ranking.
Proof.
  eapply Forall_impl;
    [|apply (records_are_failures_or_replies Stub.script RefJson.loads (fun _ => "")
               (fun _ => "") None [] (Some Stub.scripted_client)
               [Stub.cand_a; Stub.cand_b; Stub.cand_c] Stub.scenario
               Stub.scenario_ranking [])].
  - intros r [H _]. exact H.
  - vm_compute. reflexivity.
Defined.

(** ** The Cloudflare backend *)

Lemma is_set_some v : is_set v = true -> exists s, v = Some s /\ s <> "" /\ text_of v = s.
Proof.
  destruct v as [s|]; [|discriminate]. cbn. intros H. exists s.
  repeat split. intros ->. discriminate.
Qed.

(** X16. What a resolved configuration holds.  When the configuration
    resolves, the account and the token are the two constants and neither is
    empty; the model name is not empty either, and it is the model passed by
    the caller if that is a non-empty string, the constant otherwise (no model
    passed, or an empty one). *)
Theorem cloudflare_config_resolved (c : constants) (model : option string)
    (account_id api_token model_name : string) :
  _get_cloudflare_config c model = inr (account_id, api_token, model_name) ->
  (CLOUDFLARE_ACCOUNT_ID c = Some account_id /\ account_id <> "")
  /\ (CLOUDFLARE_API_TOKEN c = Some api_token /\ api_token <> "")
  /\ model_name <> ""
  /\ (model = Some model_name
      \/ ((model = None \/ model = Some "") /\ CLOUDFLARE_MODEL c = Some model_name)).
Proof.
  unfold _get_cloudflare_config.
  destruct (is_set (CLOUDFLARE_ACCOUNT_ID c)) eqn:Ha; [|discriminate].
  destruct (is_set (CLOUDFLARE_API_TOKEN c)) eqn:Ht; [|discriminate].
  destruct (is_set (or_else model (CLOUDFLARE_MODEL c))) eqn:Hm; [|discriminate].
  cbn [negb]. intros [= <- <- <-].
  apply is_set_some in Ha as (a & Ea & Na & ->).
  apply is_set_some in Ht as (t & Et & Nt & ->).
  apply is_set_some in Hm as (m & Em & Nm & ->).
  repeat split; try assumption.
  unfold or_else in Em. destruct (is_set model) eqn:Hx.
  - now left.
  - right. split; [|exact Em].
    destruct model as [s|]; [|now left]. right. cbn in Hx.
    apply negb_false_iff, String.eqb_eq in Hx. now subst.
Qed.

Lemma cloudflare_config_resolved_witness :
  CLOUDFLARE_MODEL (Constants (Some "tok") (Some "acct") (Some "@cf/meta/llama-3-8b-instruct"))
  = Some "@cf/meta/llama-3-8b-instruct".
Proof.
  destruct (cloudflare_config_resolved
              (Constants (Some "tok") (Some "acct") (Some "@cf/meta/llama-3-8b-instruct"))
              (Some "") "acct" "tok" "@cf/meta/llama-3-8b-instruct" eq_refl)
    as (_ & _ & _ & [H|[_ H]]); [discriminate H|exact H].
Defined.

Lemma dict_get_mem d k v : dict_get d k PNone = v -> v <> PNone -> dict_mem d k = true.
Proof.
  induction d as [|[k' v'] d IH]; cbn; [congruence|].
  destruct (k' =? k)%string; auto.
Qed.

Lemma dict_mem_truthy d k : dict_mem d k = true -> truthy (PDict d) = true.
Proof. now destruct d. Qed.

Section Reply.

Variable repr : pyval -> string.

(** On a mapping the function returns, and what it returns is a truthy value
    or the rendering of the whole body. *)
Lemma reply_text_mapping m :
  exists v, reply_text repr (PDict m) = inr v
            /\ (truthy v = true \/ v = PStr (py_str repr (PDict m))).
Proof.
  unfold reply_text. cbn [py_get bind ret].
  set (result := py_or (dict_get m "result" PNone) (PDict [])).
  set (found := match result with PDict d => _ | _ => PNone end).
  set (found' := if negb (truthy found) && is_str result then result else found).
  eexists. split; [reflexivity|].
  destruct (truthy found') eqn:T; cbn [negb]; auto.
Qed.

(** X17. What is dug out of a decoded body.  A body that is not a mapping
    has no [get]: [AttributeError].  On a mapping the function returns, and
    what it returns is either a truthy value found in the body or, when none
    was found, the rendering of the whole body.  When [result] is a mapping,
    the first of the keys [response], [output], [output_text] that is present
    decides, and the keys after it are not looked at: under [response] or
    [output], a non-empty string is the result, and a mapping gives its
    [content], or else its [message]; under [output_text] the value itself is
    the result; a value that yields nothing truthy gives the rendering of the
    body, and so does a mapping with none of the three keys.  When [result] is
    a non-empty string, it is the result itself; when it is falsy, or neither
    a mapping nor a string, the result is the rendering of the body. *)
Theorem reply_text_result (data : pyval) :
  match data with
  | PDict m =>
      let found := dict_get m "result" PNone in
      let rendering := PStr (py_str repr data) in
      let truthy_or_rendering := fun v => if truthy v then v else rendering in
      (exists v, reply_text repr data = inr v /\ (truthy v = true \/ v = rendering))
      /\ (forall d, found = PDict d ->
            (dict_mem d "response" = true ->
             reply_text repr data
             = ret (truthy_or_rendering (message_text (dict_get d "response" PNone)))
             /\ (forall s, dict_get d "response" PNone = PStr s -> s <> "" ->
                   reply_text repr data = ret (PStr s))
             /\ (truthy (message_text (dict_get d "response" PNone)) = false ->
                 reply_text repr data = ret rendering))
            /\ (dict_mem d "response" = false -> dict_mem d "output" = true ->
                reply_text repr data
                = ret (truthy_or_rendering (message_text (dict_get d "output" PNone)))
                /\ (forall s, dict_get d "output" PNone = PStr s -> s <> "" ->
                      reply_text repr data = ret (PStr s))
                /\ (truthy (message_text (dict_get d "output" PNone)) = false ->
                    reply_text repr data = ret rendering))
            /\ (dict_mem d "response" = false -> dict_mem d "output" = false ->
                dict_mem d "output_text" = true ->
                reply_text repr data
                = ret (truthy_or_rendering (dict_get d "output_text" PNone)))
            /\ (dict_mem d "response" = false -> dict_mem d "output" = false ->
                dict_mem d "output_text" = false ->
                reply_text repr data = ret rendering))
      /\ (forall s, found = PStr s -> s <> "" -> reply_text repr data = ret (PStr s))
      /\ (truthy found = false -> reply_text repr data = ret rendering)
      /\ ((forall d, found <> PDict d) -> (forall s, found <> PStr s) ->
          reply_text repr data = ret rendering)
      /\ (forall msg, message_text (PDict msg)
                      = py_or (dict_get msg "content" PNone) (dict_get msg "message" PNone))
      /\ (forall s, message_text (PStr s) = PStr s)
  | _ => exists e, reply_text repr data = inl e /\ exc_cls e = AttributeError
  end.
Proof.
  destruct data as [| | | | | |m]; try (eexists; split; reflexivity).
  cbv zeta. split; [apply reply_text_mapping|].
  assert (Str_result : forall s, s <> "" -> negb (s =? "")%string = true).
  { intros s Hn. apply String.eqb_neq in Hn. now rewrite Hn. }
  assert (Chosen : forall d text,
            dict_get m "result" PNone = PDict d ->
            (if dict_mem d "response" then message_text (dict_get d "response" PNone)
             else if dict_mem d "output" then message_text (dict_get d "output" PNone)
             else if dict_mem d "output_text" then dict_get d "output_text" PNone
             else PNone) = text ->
            reply_text repr (PDict m)
            = ret (if truthy text then text else PStr (py_str repr (PDict m)))).
  { intros d text Hr Ht. unfold reply_text. cbn [py_get bind ret]. rewrite Hr.
    unfold py_or. destruct d as [|kv d].
    - cbn in Ht. subst text. reflexivity.
    - cbn [truthy]. rewrite Ht. cbn [is_str]. rewrite andb_false_r.
      now destruct (truthy text). }
  split; [|split; [|split; [|split; [|split]]]].
  - intros d Hr. split; [|split; [|split]].
    + intros Hm.
      assert (E : reply_text repr (PDict m)
                  = ret (if truthy (message_text (dict_get d "response" PNone))
                         then message_text (dict_get d "response" PNone)
                         else PStr (py_str repr (PDict m)))).
      { apply (Chosen d); [exact Hr|]. now rewrite Hm. }
      split; [exact E|]. split.
      * intros s Hs Hn. rewrite E, Hs. cbn [message_text truthy]. now rewrite Str_result.
      * intros Hf. now rewrite E, Hf.
    + intros Hm Ho.
      assert (E : reply_text repr (PDict m)
                  = ret (if truthy (message_text (dict_get d "output" PNone))
                         then message_text (dict_get d "output" PNone)
                         else PStr (py_str repr (PDict m)))).
      { apply (Chosen d); [exact Hr|]. now rewrite Hm, Ho. }
      split; [exact E|]. split.
      * intros s Hs Hn. rewrite E, Hs. cbn [message_text truthy]. now rewrite Str_result.
      * intros Hf. now rewrite E, Hf.
    + intros Hm Ho Ht. apply (Chosen d); [exact Hr|]. now rewrite Hm, Ho, Ht.
    + intros Hm Ho Ht. rewrite (Chosen d PNone); [reflexivity|exact Hr|].
      now rewrite Hm, Ho, Ht.
  - intros s Hr Hn. unfold reply_text. cbn [py_get bind ret]. rewrite Hr.
    unfold py_or. cbn [truthy]. rewrite (Str_result s Hn). cbn. now rewrite (Str_result s Hn).
  - intros Hf. unfold reply_text. cbn [py_get bind ret]. unfold py_or. rewrite Hf. reflexivity.
  - intros Hd Hs. unfold reply_text. cbn [py_get bind ret]. unfold py_or.
    clear Chosen. destruct (dict_get m "result" PNone) as [|b|z|f|s|l|d].
    + reflexivity.
    + now destruct b.
    + cbn [truthy]. now destruct (z =? 0).
    + now destruct f.
    + now destruct (Hs s).
    + now destruct l.
    + now destruct (Hd d).
  - reflexivity.
  - reflexivity.
Qed.

End Reply.

Section Exchange.

Variable World : Type.
Variable consts : constants.
Variable requests_post : string -> string -> string -> Z -> World -> post_result * World.
Variable repr : pyval -> string.

(** X18. The outcomes of one backend call.  A value is returned only after
    the configuration has resolved and one request, to the run address of the
    resolved account and model, with the resolved token as bearer and the
    prompt behind the fixed preamble, has brought an accepted response whose
    body decodes; the value is what is dug out of that body.  Otherwise the call
    raises: [RuntimeError] when the configuration does not resolve (nothing is
    sent then), when the transport reports a request error or when the status
    is not accepted; the exception of the transport when it raises another
    one; that of decoding the body; or [AttributeError] on a body that is not a
    mapping. *)
Theorem score_candidate_outcome (prompt : string) (model : option string) (timeout : Z)
    (w w' : World) (r : result pyval) :
  score_candidate World consts requests_post repr prompt model timeout w = (r, w') ->
  (exists e, _get_cloudflare_config consts model = inl e /\ r = inl e /\ w' = w
             /\ exc_cls e = RuntimeError)
  \/ exists account_id api_token model_name outcome,
       _get_cloudflare_config consts model = inr (account_id, api_token, model_name)
       /\ requests_post
            ("https://api.cloudflare.com/client/v4/accounts/" ++ account_id
               ++ "/ai/run/" ++ model_name)%string
            ("Bearer " ++ api_token)%string (preamble ++ prompt)%string timeout w
          = (outcome, w')
       /\ match outcome with
          | RequestException _ => exists e, r = inl e /\ exc_cls e = RuntimeError
          | PostRaised e => r = inl e
          | Posted resp =>
              if ok resp then
                match json resp with
                | inl e => r = inl e
                | inr (PDict m) => r = reply_text repr (PDict m) /\ exists v, r = inr v
                | inr _ => exists e, r = inl e /\ exc_cls e = AttributeError
                end
              else exists e, r = inl e /\ exc_cls e = RuntimeError
          end.
Proof.
  unfold score_candidate.
  destruct (_get_cloudflare_config consts model) as [e|[[a t] m]] eqn:Hc.
  - intros [= <- <-]. left. exists e. repeat split.
    unfold _get_cloudflare_config in Hc.
    destruct (is_set (CLOUDFLARE_ACCOUNT_ID consts)); cbn [negb] in Hc;
      [|now injection Hc as <-].
    destruct (is_set (CLOUDFLARE_API_TOKEN consts)); cbn [negb] in Hc;
      [|now injection Hc as <-].
    destruct (is_set (or_else model (CLOUDFLARE_MODEL consts))); cbn [negb] in Hc;
      [discriminate|now injection Hc as <-].
  - destruct (requests_post _ _ _ timeout w) as [outcome w1] eqn:Hp.
    intros H. right. exists a, t, m, outcome.
    split; [reflexivity|].
    destruct outcome as [resp|msg|e].
    + destruct (ok resp) eqn:Hok; cbn [negb] in H.
      * injection H as <- <-. split; [exact Hp|].
        destruct (json resp) as [e|data]; cbn [bind]; [reflexivity|].
        destruct data as [| | | | | |d]; try (eexists; split; reflexivity).
        split; [reflexivity|].
        destruct (reply_text_mapping repr d) as (v & -> & _).
        now exists v.
      * injection H as <- <-. split; [exact Hp|].
        eexists; split; reflexivity.
    + injection H as <- <-. split; [exact Hp|]. eexists; split; reflexivity.
    + injection H as <- <-. split; [exact Hp|]. reflexivity.
Qed.

End Exchange.

Lemma score_candidate_outcome_witness :
  let c := Constants (Some "tok") (Some "acct") (Some "@cf/meta/llama-3-8b-instruct") in
  let body := PDict [("result", PDict [("response", PStr (Stub.score_reply "0.5"))])] in
  let post := fun (_ _ _ : string) (_ : Z) (w : nat) =>
                (Posted (Response true 200 "" (inr body)), S w) in
  score_candidate nat c post (fun _ => "") "prompt" None 600 0%nat
  = (inr (PStr (Stub.score_reply "0.5")), 1%nat)
  /\ exists account_id api_token model_name,
       _get_cloudflare_config c None = inr (account_id, api_token, model_name).
Proof.
  intros c body post. split; [reflexivity|].
  destruct (score_candidate_outcome nat c post (fun _ => "") "prompt" None 600 0%nat 1%nat
              (inr (PStr (Stub.score_reply "0.5"))) eq_refl)
    as [(e & _ & H & _)|(a & t & m & _ & H & _)].
  - discriminate H.
  - now exists a, t, m.
Defined.

(** ** The script: which files are loaded *)

Lemma length_lower s : String.length (App.lower s) = String.length s.
Proof. induction s as [|c s IH]; cbn; congruence. Qed.

Lemma lower_app a b : App.lower (a ++ b) = (App.lower a ++ App.lower b)%string.
Proof. induction a as [|c a IH]; cbn; congruence. Qed.

Lemma endswith_tail s t p :
  String.length t = String.length p -> Str.endswith (s ++ t) p = (t =? p)%string.
Proof.
  intros H. unfold Str.endswith. rewrite length_app_string, H.
  replace (String.length p <=? String.length s + String.length p)%nat with true
    by (symmetry; apply Nat.leb_le; lia).
  replace (String.length s + String.length p - String.length p)%nat
    with (String.length s) by lia.
  rewrite substring_skip, <- H, substring_all. reflexivity.
Qed.

Lemma endswith_short s p :
  (String.length s < String.length p)%nat -> Str.endswith s p = false.
Proof.
  intros H. unfold Str.endswith.
  replace (String.length p <=? String.length s)%nat with false
    by (symmetry; apply Nat.leb_gt; lia).
  reflexivity.
Qed.

(** X19. Which names the script takes for resumes: a name shorter than four
    characters is passed over, and a longer one is taken exactly when its last
    four characters are [.pdf] in any mix of upper and lower case. *)
Theorem is_pdf_name_by_extension (name : string) :
  ((String.length name < 4)%nat -> App.is_pdf_name name = false)
  /\ (forall stem ext, name = (stem ++ ext)%string -> String.length ext = 4%nat ->
        App.is_pdf_name name = (App.lower ext =? ".pdf")%string).
Proof.
  unfold App.is_pdf_name. split.
  - intros H. apply endswith_short. now rewrite length_lower.
  - intros stem ext -> H. rewrite lower_app. apply endswith_tail. now rewrite length_lower.
Qed.

Lemma load_pdf_binary_header contents data :
  load_pdf_binary contents = inr data -> firstn 5 data = pdf_magic.
Proof.
  unfold load_pdf_binary.
  match goal with |- bind ?m _ = _ -> _ => destruct m as [e|d]; [discriminate|] end.
  cbn [bind]. unfold _is_pdf_bytes.
  destruct (bytes_eqb_spec (firstn 5 d) pdf_magic) as [E|E]; [|discriminate].
  now intros [= <-].
Qed.

Section Folder.

Variable path_join : string -> string -> string.
Variable open_rb : string -> result read_result.

Local Notation load_resumes := (App.load_resumes path_join open_rb).
Local Notation load_one := (App.load_one open_rb).

(** A name of the listing is kept when it has the extension and its file
    loads. *)
Let kept (name : string) : bool :=
  App.is_pdf_name name
  && match load_one (path_join App.resume_folder name) with inr _ => true | inl _ => false end.

(** A loaded file holds what the loader returned for the path of its name. *)
Let loaded (pdf : App.pdf_file) : Prop :=
  App.path pdf = path_join App.resume_folder (App.filename pdf)
  /\ load_one (App.path pdf) = inr (App.content pdf)
  /\ firstn 5 (App.content pdf) = pdf_magic.

Lemma load_resumes_acc listing : forall acc,
  load_resumes listing acc = acc ++ load_resumes listing [].
Proof.
  induction listing as [|name rest IH]; intros acc; cbn [App.load_resumes].
  - now rewrite app_nil_r.
  - destruct (App.is_pdf_name name); [|apply IH].
    destruct (load_one (path_join App.resume_folder name)) as [e|data]; [apply IH|].
    rewrite (IH (acc ++ _)), (IH ([] ++ _)). now rewrite <- app_assoc.
Qed.

Lemma load_resumes_names listing :
  map App.filename (load_resumes listing []) = filter kept listing.
Proof.
  induction listing as [|name rest IH]; [reflexivity|].
  cbn [App.load_resumes filter]. unfold kept at 1.
  destruct (App.is_pdf_name name); cbn [andb]; [|exact IH].
  destruct (load_one (path_join App.resume_folder name)) as [e|data]; [exact IH|].
  rewrite load_resumes_acc. cbn. now rewrite IH.
Qed.

Lemma load_resumes_loaded listing : Forall loaded (load_resumes listing []).
Proof.
  induction listing as [|name rest IH]; [constructor|].
  cbn [App.load_resumes].
  destruct (App.is_pdf_name name); [|exact IH].
  destruct (load_one (path_join App.resume_folder name)) as [e|data] eqn:E; [exact IH|].
  rewrite load_resumes_acc. cbn [List.app]. constructor; [|exact IH].
  split; [reflexivity|]. split; [exact E|]. cbn.
  unfold App.load_one in E. destruct (open_rb _) as [e|f]; [discriminate|]. cbn [bind] in E.
  eapply load_pdf_binary_header, E.
Qed.

(** X20. The files the script ends up with.  Their names are the names of
    the listing that have the extension and whose file loads, in the order of
    the listing and as often as they are listed; a file that cannot be opened
    or is refused by the loader is passed over and does not stop the loop.
    Each loaded file has the path joined from the folder and its name, holds
    the bytes the loader returned for that path, and those begin with the
    header. *)
Theorem loaded_resumes (listing : list string) :
  map App.filename (load_resumes listing [])
  = filter (fun name =>
              App.is_pdf_name name
              && match load_one (path_join App.resume_folder name) with
                 | inr _ => true
                 | inl _ => false
                 end) listing
  /\ Forall (fun pdf =>
               App.path pdf = path_join App.resume_folder (App.filename pdf)
               /\ load_one (App.path pdf) = inr (App.content pdf)
               /\ firstn 5 (App.content pdf) = pdf_magic)
       (load_resumes listing []).
Proof. split; [apply load_resumes_names|apply load_resumes_loaded]. Qed.

End Folder.

(** ** The script: what a candidate holds *)

Lemma substring_nil n m : substring n m EmptyString = EmptyString.
Proof. destruct n, m; reflexivity. Qed.

Lemma substring_min s : forall m,
  substring 0 (Nat.min m (String.length s)) s = substring 0 m s.
Proof.
  induction s as [|c s IH]; intros [|m]; cbn [String.length Nat.min substring]; try reflexivity.
  now rewrite IH.
Qed.

Lemma slice_head s n :
  0 <= n -> Str.slice s None (Some n) = substring 0 (Z.to_nat n) s.
Proof.
  intros Hn. unfold Str.slice, Str.clamp, Str.len.
  replace (n <? 0) with false by (symmetry; apply Z.ltb_ge; lia).
  rewrite Z.sub_0_r. change (Z.to_nat 0) with 0%nat.
  replace (Z.to_nat (Z.max 0 (Z.min (Z.of_nat (String.length s)) n)))
    with (Nat.min (Z.to_nat n) (String.length s)) by lia.
  apply substring_min.
Qed.

Lemma hex_firstn k : forall data,
  substring 0 (2 * k) (App.hex data) = App.hex (firstn k data).
Proof.
  induction k as [|k IH]; intros data.
  - cbn. now destruct (App.hex data).
  - replace (2 * S k)%nat with (S (S (2 * k))) by lia.
    destruct data as [|b data]; [reflexivity|].
    cbn [App.hex firstn substring]. now rewrite IH.
Qed.

Lemma length_hex data : String.length (App.hex data) = (2 * List.length data)%nat.
Proof. induction data as [|b data IH]; cbn [App.hex String.length List.length]; lia. Qed.

(** The preview of a candidate is the hexadecimal form of the first 50 bytes
    of its file. *)
Lemma preview_hex data :
  Str.slice (App.hex data) None (Some 100) = App.hex (firstn 50 data).
Proof. rewrite slice_head by lia. apply (hex_firstn 50). Qed.

(** X21. What of a resume reaches the scorer.  A candidate holds the path of
    its file as [id], the name of the file as [name], and as [pdf_preview] the
    hexadecimal form of the first 50 bytes of the file, at most 100 characters;
    for a file that came through the loader the preview begins with
    [255044462d].  Nothing else of the file is in the candidate: two files of
    the same name and path that agree on their first 50 bytes give the same
    candidate, and with it the same prompt. *)
Theorem candidate_holds_first_50_bytes (json_dumps : pyval -> string) (config : dict)
    (pdf : App.pdf_file) :
  App.candidate_of pdf
  = [("id", PStr (App.path pdf)); ("name", PStr (App.filename pdf));
     ("pdf_preview", PStr (App.hex (firstn 50 (App.content pdf))))]
  /\ (String.length (App.hex (firstn 50 (App.content pdf))) <= 100)%nat
  /\ (firstn 5 (App.content pdf) = pdf_magic ->
      exists rest, App.hex (firstn 50 (App.content pdf)) = ("255044462d" ++ rest)%string)
  /\ (forall data,
        firstn 50 data = firstn 50 (App.content pdf) ->
        let pdf' := App.PdfFile (App.filename pdf) (App.path pdf) data in
        App.candidate_of pdf' = App.candidate_of pdf
        /\ build_prompt_for_candidate json_dumps (App.candidate_of pdf') config
           = build_prompt_for_candidate json_dumps (App.candidate_of pdf) config).
Proof.
  assert (C : forall p, App.candidate_of p
                = [("id", PStr (App.path p)); ("name", PStr (App.filename p));
                   ("pdf_preview", PStr (App.hex (firstn 50 (App.content p))))]).
  { intros p. unfold App.candidate_of. now rewrite preview_hex. }
  split; [apply C|]. split; [|split].
  - rewrite length_hex, length_firstn. lia.
  - intros H. destruct (App.content pdf) as [|b1 [|b2 [|b3 [|b4 [|b5 rest]]]]];
      try discriminate H.
    injection H as -> -> -> -> ->.
    exists (App.hex (firstn 45 rest)). reflexivity.
  - intros data H pdf'. assert (E : App.candidate_of pdf' = App.candidate_of pdf).
    { rewrite !C. unfold pdf'. cbn [App.path App.filename App.content]. now rewrite H. }
    split; [exact E|]. now rewrite E.
Qed.

(** ** The script: the details of a ranked record *)

Lemma join_from_strs sep items : forall i,
  Forall (fun v => is_str v = true) items -> exists line, App.join_from sep items i = inr line.
Proof.
  induction items as [|v rest IH]; intros i H; [now exists EmptyString|].
  inversion H as [|? ? Hv Hr]; subst. destruct v; try discriminate Hv.
  cbn [App.join_from]. destruct (IH (i + 1) Hr) as [tail ->]. cbn [bind ret]. eauto.
Qed.

Lemma join_from_other sep items : forall i,
  Exists (fun v => is_str v = false) items ->
  exists e, App.join_from sep items i = inl e /\ exc_cls e = TypeError.
Proof.
  induction items as [|v rest IH]; intros i H; [inversion H|].
  destruct (is_str v) eqn:Hv.
  - inversion H as [? ? Hx|? ? Hx]; subst; [congruence|].
    destruct v; try discriminate Hv. cbn [App.join_from].
    destruct (IH (i + 1) Hx) as (e & -> & He). now exists e.
  - destruct v; try discriminate Hv; cbn [App.join_from]; eexists; split; reflexivity.
Qed.

Section Details.

Variable repr : pyval -> string.


End Details.
